(** * oobabot: response decision, prompt history and repetition tracking

    A shallow embedding of [src/oobabot/discord_bot.py]: the sanitizer,
    the [RepetitionTracker], [PromptGenerator.generate_history], the
    direct / unsolicited response policy of [DiscordBot] and the sentence
    loop of [DiscordBot.send_response], followed by the properties the
    specification states about them; and of [src/oobabot/templates.py]:
    the token and template enumerations, [TemplateMessageFormatter] and
    [TemplateStore], with the properties the code itself shows.

    Conventions.
    - A Python [str] is a [string]; each [ascii] is one code point in
      0..255 (the Latin-1 block of Unicode), on which [str.isspace],
      [str.lower] and the regex class [\w] are the tables written below.
    - A Python [int] is a [Z]; [int | None] is [option Z].
    - A Python [float] is an IEEE binary64 [float] (primitive floats).
    - Dictionaries keyed by channel id are [gmap Z _].
    - Calls that read the outside world ([time.time()], [random.random()],
      the history iterator, the sentence stream, [channel.send]) take
      their result as an argument. *)

From Stdlib Require Import ZArith List Bool Ascii String Floats Lia.
From stdpp Require Import base option gmap.
Import ListNotations.

Local Open Scope string_scope.
Local Open Scope list_scope.
Local Open Scope Z_scope.

(** ** Characters and strings *)

Definition code (c : ascii) : Z := Z.of_N (N_of_ascii c).

Definition in_range (lo hi : Z) (c : ascii) : bool :=
  (lo <=? code c) && (code c <=? hi).

(** [FORBIDDEN_CHARACTERS = r"[\n\r\t]"] *)
Definition FORBIDDEN_CHARACTERS (c : ascii) : bool :=
  (code c =? 10) || (code c =? 13) || (code c =? 9).

(** [FORBIDDEN_CHARACTERS_PATTERN.sub(" ", raw_string)]: the pattern is a
    one-character class, so every matching character is replaced by one
    space and the others are copied. *)
Fixpoint sanitize_string (raw_string : string) : string :=
  match raw_string with
  | EmptyString => EmptyString
  | String c rest =>
      String (if FORBIDDEN_CHARACTERS c then " "%char else c)
             (sanitize_string rest)
  end.

(** [str.isspace] on one code point below 256. *)
Definition isspace (c : ascii) : bool :=
  in_range 9 13 c || in_range 28 32 c || (code c =? 133) || (code c =? 160).

(** [str.lower] on one code point below 256: A-Z and the capital letters
    of Latin-1 (all of 192..222 but the multiplication sign 215). *)
Definition isupper (c : ascii) : bool :=
  in_range 65 90 c || (in_range 192 222 c && negb (code c =? 215)).

Definition lower_char (c : ascii) : ascii :=
  if isupper c then ascii_of_N (Z.to_N (code c + 32)) else c.

Fixpoint lower (s : string) : string :=
  match s with
  | EmptyString => EmptyString
  | String c rest => String (lower_char c) (lower rest)
  end.

Fixpoint lstrip (s : string) : string :=
  match s with
  | EmptyString => EmptyString
  | String c rest => if isspace c then lstrip rest else s
  end.

Fixpoint rstrip (s : string) : string :=
  match s with
  | EmptyString => EmptyString
  | String c rest =>
      match rstrip rest with
      | EmptyString => if isspace c then EmptyString else String c EmptyString
      | kept => String c kept
      end
  end.

(** [str.strip()] *)
Definition strip (s : string) : string := rstrip (lstrip s).

(** [s.endswith(suffix)] *)
Fixpoint startswith (s prefix : string) : bool :=
  match prefix, s with
  | EmptyString, _ => true
  | String p prefix', String c s' => Ascii.eqb c p && startswith s' prefix'
  | String _ _, EmptyString => false
  end.

Fixpoint endswith (s suffix : string) : bool :=
  String.eqb s suffix ||
  match s with
  | EmptyString => false
  | String _ rest => endswith rest suffix
  end.

(** [needle in s] *)
Fixpoint contains (s needle : string) : bool :=
  startswith s needle ||
  match s with
  | EmptyString => false
  | String _ rest => contains rest needle
  end.

(** [len(s)] *)
Definition len (s : string) : Z := Z.of_nat (String.length s).

(** ["".join(lines)] *)
Fixpoint join (lines : list string) : string :=
  match lines with
  | [] => EmptyString
  | l :: rest => (l ++ join rest)%string
  end.

(** Every character of the string satisfies the test. *)
Fixpoint all_chars (test : ascii -> bool) (s : string) : bool :=
  match s with
  | EmptyString => true
  | String c rest => test c && all_chars test rest
  end.

(** Empty or made of whitespace only. *)
Definition blank (s : string) : bool := all_chars isspace s.

(** [not l] for a list. *)
Definition null {A : Type} (l : list A) : bool :=
  match l with
  | [] => true
  | _ :: _ => false
  end.

(** Sum of the lengths of the lines. *)
Definition total_len (lines : list string) : Z :=
  fold_right (fun line n => len line + n) 0 lines.

(** Membership of a character in a string. *)
Fixpoint occurs (c : ascii) (s : string) : Prop :=
  match s with
  | EmptyString => False
  | String d rest => d = c \/ occurs c rest
  end.

Definition LF : ascii := ascii_of_N 10.
Definition CR : ascii := ascii_of_N 13.
Definition TAB : ascii := ascii_of_N 9.

(** ** Messages and settings *)

(** The fields of a [discord.Message] that the bot reads. *)
Record Message := {
  message_id : Z;
  content : string;
  author_id : Z;
  author_name : string;
  author_bot : bool;
  guild_name : option string;
  channel_id : Z;
  channel_private : bool;
  mentions : list Z;
  created_at : float
}.

(** The [Settings] class of this version of the bot is not among the
    sources: the constants and the template the code reads from it are the
    fields of this record.  [format_history_line author text] stands for
    [template_store.format(DISCORD_PROMPT_HISTORY_LINE_TEMPLATE,
    DISCORD_USER_NAME=author, DISCORD_USER_MESSAGE=text)]. *)
Record Settings := {
  DISCORD_REPETITION_THRESHOLD : Z;
  DISCORD_TIME_VS_RESPONSE_CHANCE : list (float * float);
  DISCORD_INTERROBANG_BONUS : float;
  DISCORD_HISTORY_LINES_TO_SUPPLY : Z;
  DISCORD_HISTORY_EST_CHARACTERS_PER_LINE : Z;
  format_history_line : string -> string -> string
}.

(** Truth value of an [int | None] in a condition: [None] and [0] are
    false. *)
Definition truthy (v : option Z) : bool :=
  match v with
  | Some n => negb (n =? 0)
  | None => false
  end.

(** ** RepetitionTracker *)

Module RepetitionTracker.

(** [repetition_count] maps a channel id to
    [(last_message, throttle_message_id, repetition_count)]. *)
Record t := {
  repetition_threshold : Z;
  repetition_count : gmap Z (string * Z * Z)
}.

Definition init (repetition_threshold : Z) : t :=
  {| repetition_threshold := repetition_threshold;
     repetition_count := ∅ |}.

Definition get_throttle_message_id (self : t) (channel_id : Z) : option Z :=
  match repetition_count self !! channel_id with
  | Some (_, throttle_message_id, _) => Some throttle_message_id
  | None => None
  end.

Definition should_throttle (self : t) (repetition_count : Z) : bool :=
  repetition_count >=? repetition_threshold self.

Definition make_canonical (content : string) : string :=
  lower (strip content).

Definition log_message (self : t) (channel_id : Z)
    (response_message : Message) : t :=
  let sentence := make_canonical (content response_message) in
  let '(last_message, throttle_message_id, count) :=
    default (EmptyString, 0, 0) (repetition_count self !! channel_id) in
  let count := if String.eqb last_message sentence then count + 1 else 0 in
  let throttle_message_id :=
    if should_throttle self count
    then message_id response_message
    else throttle_message_id in
  {| repetition_threshold := repetition_threshold self;
     repetition_count :=
       <[channel_id := (sentence, throttle_message_id, count)]>
         (repetition_count self) |}.

(** The other two components of a channel's entry, with the defaults
    [log_message] reads when the channel has none. *)
Definition last_message (self : t) (channel_id : Z) : string :=
  match repetition_count self !! channel_id with
  | Some (last, _, _) => last
  | None => EmptyString
  end.

Definition count (self : t) (channel_id : Z) : Z :=
  match repetition_count self !! channel_id with
  | Some (_, _, n) => n
  | None => 0
  end.

(** The counter [log_message] computes for this message, before it is
    compared with the threshold and stored. *)
Definition next_count (self : t) (channel_id : Z)
    (response_message : Message) : Z :=
  if String.eqb (last_message self channel_id)
       (make_canonical (content response_message))
  then count self channel_id + 1
  else 0.

(** Logging a sequence of sent messages, each to its channel. *)
Definition log_events (self : t) (events : list (Z * Message)) : t :=
  fold_left (fun tr '(channel_id, m) => log_message tr channel_id m)
            events self.

(** No message of the sequence logged to [channel_id] made
    [should_throttle] answer true. *)
Fixpoint never_throttled (self : t) (channel_id : Z)
    (events : list (Z * Message)) : Prop :=
  match events with
  | [] => True
  | (c, m) :: rest =>
      (c = channel_id ->
       should_throttle self (next_count self c m) = false) /\
      never_throttled (log_message self c m) channel_id rest
  end.

(** Logging a run of bot messages to one channel, oldest first. *)
Definition log_messages (self : t) (channel_id : Z)
    (messages : list Message) : t :=
  fold_left (fun tr m => log_message tr channel_id m) messages self.

End RepetitionTracker.

(** ** PromptGenerator *)

Module PromptGenerator.

Record t := {
  ai_name : string;
  settings : Settings;
  max_history_chars : Z
}.

Record clean := {
  author : string;
  message_text : string;
  server : string
}.

Definition sanitize_message (raw_message : Message) : clean :=
  {| author := sanitize_string (author_name raw_message);
     message_text := strip (sanitize_string (content raw_message));
     server := sanitize_string (default "DM" (guild_name raw_message)) |}.

(** [stop_before_message_id and raw_message.id == stop_before_message_id] *)
Definition at_throttle (stop_before_message_id : option Z)
    (raw_message : Message) : bool :=
  truthy stop_before_message_id &&
  match stop_before_message_id with
  | Some k => message_id raw_message =? k
  | None => false
  end.

Definition image_marker : string :=
  "tried to make an image with the prompt".

(** The body of the [async for]: [message_history] is what the iterator
    yields, newest first; the result is [history_lines] when the loop is
    left. *)
Fixpoint history_loop (self : t) (ai_user_id : Z)
    (stop_before_message_id : option Z) (message_history : list Message)
    (prompt_len_remaining : Z) (history_lines : list string)
    : list string :=
  match message_history with
  | [] => history_lines
  | raw_message :: older =>
      if at_throttle stop_before_message_id raw_message then history_lines
      else
        let clean_message := sanitize_message raw_message in
        let from_ai := author_id raw_message =? ai_user_id in
        let author := if from_ai then ai_name self
                      else author clean_message in
        if from_ai && contains (message_text clean_message) image_marker
        then history_loop self ai_user_id stop_before_message_id older
               prompt_len_remaining history_lines
        else if String.eqb (message_text clean_message) EmptyString
        then history_loop self ai_user_id stop_before_message_id older
               prompt_len_remaining history_lines
        else
          let line := format_history_line (settings self) author
                        (message_text clean_message) in
          if len line >? prompt_len_remaining then history_lines
          else history_loop self ai_user_id stop_before_message_id older
                 (prompt_len_remaining - len line)
                 (history_lines ++ [line])
  end.

Definition generate_history (self : t) (ai_user_id : Z)
    (message_history : list Message) (stop_before_message_id : option Z)
    : string :=
  join (rev (history_loop self ai_user_id stop_before_message_id
               message_history (max_history_chars self) [])).

(** The line a message contributes to the history, [None] for a message
    the loop passes over with [continue]. *)
Definition render (self : t) (ai_user_id : Z) (raw_message : Message)
    : option string :=
  let clean_message := sanitize_message raw_message in
  let from_ai := author_id raw_message =? ai_user_id in
  if from_ai && contains (message_text clean_message) image_marker then None
  else if String.eqb (message_text clean_message) EmptyString then None
  else Some (format_history_line (settings self)
               (if from_ai then ai_name self else author clean_message)
               (message_text clean_message)).

(** The lines of the messages that come before the throttle message,
    newest first. *)
Fixpoint candidates (self : t) (ai_user_id : Z)
    (stop_before_message_id : option Z) (message_history : list Message)
    : list string :=
  match message_history with
  | [] => []
  | raw_message :: older =>
      if at_throttle stop_before_message_id raw_message then []
      else match render self ai_user_id raw_message with
           | Some line =>
               line :: candidates self ai_user_id stop_before_message_id older
           | None => candidates self ai_user_id stop_before_message_id older
           end
  end.

(** The longest run of leading lines that fits the budget line by line. *)
Fixpoint take_budget (remaining : Z) (lines : list string) : list string :=
  match lines with
  | [] => []
  | line :: rest =>
      if len line >? remaining then []
      else line :: take_budget (remaining - len line) rest
  end.

(** [init_history_available_chars]: the budget, or [None] for the
    [ValueError] branch. *)
Definition init_history_available_chars (s : Settings)
    (est_chars_in_token_space : Z) (possible_prompt : string) : option Z :=
  let max_history_chars := est_chars_in_token_space - len possible_prompt in
  if max_history_chars <?
     DISCORD_HISTORY_LINES_TO_SUPPLY s *
     DISCORD_HISTORY_EST_CHARACTERS_PER_LINE s
  then None
  else Some max_history_chars.

End PromptGenerator.

(** ** Wake-word patterns *)

(** The fragment of regular expressions that [rf"\b{wakeword}\b"] with
    [re.IGNORECASE] falls in when the wake-word holds no character
    special to the syntax of regular expressions: a sequence of
    word-boundary assertions and of single characters compared
    case-insensitively. *)
Inductive atom :=
| WordBoundary
| Literal (c : ascii).

Definition pattern := list atom.

(** The class [\w] on code points below 256: alphanumerics and [_]. *)
Definition isword (c : ascii) : bool :=
  in_range 48 57 c || in_range 65 90 c || (code c =? 95) ||
  in_range 97 122 c || (code c =? 170) || in_range 178 179 c ||
  (code c =? 181) || in_range 185 186 c || in_range 188 190 c ||
  in_range 192 214 c || in_range 216 246 c || in_range 248 255 c.

Definition word_before (prev : option ascii) : bool :=
  match prev with
  | Some c => isword c
  | None => false
  end.

Definition word_after (s : string) : bool :=
  match s with
  | String c _ => isword c
  | EmptyString => false
  end.

(** Does the pattern match at this position?  [prev] is the character
    before the position (none at the start), [s] what follows it. *)
Fixpoint match_here (p : pattern) (prev : option ascii) (s : string) : bool :=
  match p with
  | [] => true
  | WordBoundary :: p' =>
      xorb (word_before prev) (word_after s) && match_here p' prev s
  | Literal c :: p' =>
      match s with
      | String d s' =>
          Ascii.eqb (lower_char c) (lower_char d) && match_here p' (Some d) s'
      | EmptyString => false
      end
  end.

Fixpoint search_from (p : pattern) (prev : option ascii) (s : string) : bool :=
  match_here p prev s ||
  match s with
  | String c s' => search_from p (Some c) s'
  | EmptyString => false
  end.

(** [pattern.search(s)] as a truth value. *)
Definition search (p : pattern) (s : string) : bool := search_from p None s.

Fixpoint literals (w : string) : pattern :=
  match w with
  | EmptyString => []
  | String c w' => Literal c :: literals w'
  end.

(** The characters with a meaning of their own in a regular expression
    ([SPECIAL_CHARS] of the [re] parser); every other character of an
    expression stands for itself. *)
Definition special_char (c : ascii) : bool :=
  existsb (Ascii.eqb c) (list_ascii_of_string ".\[{()*+?^$|").

(** The expression [\b], the characters of [wakeword] as literals, [\b]. *)
Definition word_boundary_pattern (wakeword : string) : pattern :=
  WordBoundary :: literals wakeword ++ [WordBoundary].

(** [re.compile(rf"\b{wakeword}\b", re.IGNORECASE)].  The wake-word is
    put into the expression as it is, without escaping.  When none of
    its characters is special, each of them is a literal of the
    expression; [None] stands for a wake-word that holds a special
    character: what [re.compile] makes of it (an expression in which
    that character is an operator, or an error) is outside the fragment
    modelled here. *)
Definition compile_wakeword (wakeword : string) : option pattern :=
  if all_chars (fun c => negb (special_char c)) wakeword
  then Some (word_boundary_pattern wakeword)
  else None.




(** ** DiscordBot *)

Module DiscordBot.

(** [user] is [self.user.id], [None] while [self.user] is unset. *)
Record t := {
  ai_name : string;
  ai_user_id : Z;
  user : option Z;
  ignore_dms : bool;
  settings : Settings;
  wakeword_patterns : list pattern;
  channel_last_direct_response : gmap Z float;
  discard_last_response_after_seconds : float;
  repetition_tracker : RepetitionTracker.t
}.

Definition set_channel_last_direct_response (self : t)
    (m : gmap Z float) : t :=
  {| ai_name := ai_name self;
     ai_user_id := ai_user_id self;
     user := user self;
     ignore_dms := ignore_dms self;
     settings := settings self;
     wakeword_patterns := wakeword_patterns self;
     channel_last_direct_response := m;
     discard_last_response_after_seconds :=
       discard_last_response_after_seconds self;
     repetition_tracker := repetition_tracker self |}.

(** [max(time for time, _ in DISCORD_TIME_VS_RESPONSE_CHANCE)]; [None]
    where [max] raises on an empty table. *)
Definition max_duration (table : list (float * float)) : option float :=
  match table with
  | [] => None
  | (d, _) :: rest =>
      Some (fold_left (fun best '(d', _) =>
                         if PrimFloat.ltb best d' then d' else best) rest d)
  end.

Definition should_send_direct_response (self : t) (message : Message) : bool :=
  if channel_private message then negb (ignore_dms self)
  else if existsb (fun wakeword_pattern =>
                     search wakeword_pattern (content message))
                  (wakeword_patterns self)
  then true
  else match user self with
       | Some uid => existsb (Z.eqb uid) (mentions message)
       | None => false
       end.

(** The loop over the decay table: the chance of the first entry the
    elapsed time is below, [0.0] when the loop ends without [break]. *)
Fixpoint base_chance (table : list (float * float))
    (time_since_last_send : float) : float :=
  match table with
  | [] => 0%float
  | (duration, chance) :: rest =>
      if PrimFloat.ltb time_since_last_send duration then chance
      else base_chance rest time_since_last_send
  end.

(** [response_chance] as it stands just before the random draw, for a
    channel with a recorded last direct response at [last]. *)
Definition response_chance (self : t) (message : Message) (last : float)
    : float :=
  let time_since_last_send := PrimFloat.sub (created_at message) last in
  let response_chance :=
    base_chance (DISCORD_TIME_VS_RESPONSE_CHANCE (settings self))
      time_since_last_send in
  let response_chance :=
    if endswith (content message) "?"
    then PrimFloat.add response_chance
           (DISCORD_INTERROBANG_BONUS (settings self))
    else response_chance in
  let response_chance :=
    if endswith (content message) "!"
    then PrimFloat.add response_chance
           (DISCORD_INTERROBANG_BONUS (settings self))
    else response_chance in
  response_chance.

(** [random_sample] is the value of [random.random()]. *)
Definition should_send_unsolicited_response (self : t) (message : Message)
    (random_sample : float) : bool :=
  match channel_last_direct_response self !! channel_id message with
  | None => false
  | Some last =>
      PrimFloat.ltb random_sample (response_chance self message last)
  end.

(** [now] is the value of [time.time()]. *)
Definition purge_outdated_response_times (self : t) (now : float) : t :=
  let oldest_time_to_keep :=
    PrimFloat.sub now (discard_last_response_after_seconds self) in
  set_channel_last_direct_response self
    (filter (fun kv => PrimFloat.leb oldest_time_to_keep (snd kv) = true)
            (channel_last_direct_response self)).

Definition is_self (self : t) (message : Message) : bool :=
  match user self with
  | Some uid => author_id message =? uid
  | None => false
  end.

(** The answer and the bot after the call; [now] and [random_sample] are
    the clock and the random draw the call may read. *)
Definition should_reply_to_message (self : t) (message : Message)
    (now random_sample : float) : bool * t :=
  if author_bot message then (false, self)
  else if is_self self message then (false, self)
  else if should_send_direct_response self message then
    (true,
     if negb (channel_id message =? 0)
     then set_channel_last_direct_response self
            (<[channel_id message := now]>
               (channel_last_direct_response self))
     else self)
  else if negb (null (mentions message)) then (false, self)
  else if String.eqb (strip (content message)) EmptyString then (false, self)
  else
    let self := purge_outdated_response_times self now in
    (should_send_unsolicited_response self message random_sample, self).

(** *** The sentence loop of [send_response] *)

Section SendResponse.

(** The outbound channel: [send chan sentence] is [channel.send(sentence)],
    giving the message the platform created and the channel afterwards, or
    [None] when the call raises. *)
Variable Channel : Type.
Variable send : Channel -> string -> option (Message * Channel).

(** How the [try] block ends: the loop ran to its end (or left by
    [break]), or an exception reached the handler. *)
Inductive outcome := Done | Failed.

(** The [async for] over [request_by_sentence], inside the [try] block.
    [sentences] are the sentences the stream yields; [stream_raises]
    tells how the stream ends after them: by raising (a backend or
    transport failure, which reaches the handler) or by being exhausted.
    A loop left by [break] asks the stream for nothing more. *)
Fixpoint sentence_loop (ai_name : string) (channel_id : Z)
    (sentences : list string) (stream_raises : bool) (chan : Channel)
    (tracker : RepetitionTracker.t)
    : outcome * Channel * RepetitionTracker.t :=
  match sentences with
  | [] => (if stream_raises then Failed else Done, chan, tracker)
  | sentence :: rest =>
      if String.eqb (ai_name ++ " says:") sentence
      then sentence_loop ai_name channel_id rest stream_raises chan tracker
      else if endswith sentence " says:" then (Done, chan, tracker)
      else
        match send chan sentence with
        | None => (Failed, chan, tracker)
        | Some (response_message, chan') =>
            sentence_loop ai_name channel_id rest stream_raises chan'
              (RepetitionTracker.log_message tracker channel_id
                 response_message)
        end
  end.

End SendResponse.

End DiscordBot.

(** ** Sample data *)

(** A message in guild channel 1, as used in the worked examples. *)
Definition sample_message (id author : Z) (name text : string) : Message :=
  {| message_id := id;
     content := text;
     author_id := author;
     author_name := name;
     author_bot := false;
     guild_name := Some "guild";
     channel_id := 1;
     channel_private := false;
     mentions := [];
     created_at := 0%float |}.

(** Settings with exactly representable chances and the line template
    ["{DISCORD_USER_NAME}: {DISCORD_USER_MESSAGE}\n"]. *)
Definition sample_settings : Settings :=
  {| DISCORD_REPETITION_THRESHOLD := 1;
     DISCORD_TIME_VS_RESPONSE_CHANCE :=
       [(10%float, 0.75%float); (60%float, 0.5%float);
        (120%float, 0.25%float)];
     DISCORD_INTERROBANG_BONUS := 0.5%float;
     DISCORD_HISTORY_LINES_TO_SUPPLY := 20;
     DISCORD_HISTORY_EST_CHARACTERS_PER_LINE := 30;
     format_history_line :=
       fun author text => (author ++ ": " ++ text ++ String LF "")%string |}.

Definition sample_generator (budget : Z) : PromptGenerator.t :=
  {| PromptGenerator.ai_name := "Rosie";
     PromptGenerator.settings := sample_settings;
     PromptGenerator.max_history_chars := budget |}.

(** A sentence the bot (user id 99) has sent. *)
Definition bot_message (id : Z) (text : string) : Message :=
  sample_message id 99 "Rosie" text.

(** Twenty messages, newest first, each rendered as a line of thirty
    characters. *)
Definition thirty_char_history : list Message :=
  map (fun i => sample_message (100 - Z.of_nat i) 7 "bob"
                  "abcdefghijklmnopqrstuvwx")
      (seq 0 20).

(** A bot whose wake-word is "bot" (no special character: its
    expression is [word_boundary_pattern "bot"]) and whose last direct
    response in channel 1 was at time 0. *)
Definition sample_bot : DiscordBot.t :=
  {| DiscordBot.ai_name := "Rosie";
     DiscordBot.ai_user_id := 99;
     DiscordBot.user := Some 99;
     DiscordBot.ignore_dms := false;
     DiscordBot.settings := sample_settings;
     DiscordBot.wakeword_patterns := [word_boundary_pattern "bot"];
     DiscordBot.channel_last_direct_response := {[ 1 := 0%float ]};
     DiscordBot.discard_last_response_after_seconds := 120%float;
     DiscordBot.repetition_tracker := RepetitionTracker.init 1 |}.

(** An outbound channel that records what was sent and numbers the
    messages 1, 2, ... *)
Definition sample_send (sent : list Message) (sentence : string)
    : option (Message * list Message) :=
  let m := bot_message (Z.of_nat (length sent) + 1) sentence in
  Some (m, sent ++ [m]).

(** ** templates.py *)

(** The members of the enumeration [TemplateToken] and their values. *)
Module TemplateToken.

Inductive t :=
| AI_NAME | PERSONA | IMAGE_COMING | IMAGE_PROMPT | IMAGE_TIMEOUT
| EXAMPLE_DIALOGUE | MESSAGE_HISTORY | SECTION_SEPARATOR | NAME
| USER_NAME | BOT_NAME | SYSTEM_SEQUENCE_PREFIX | SYSTEM_SEQUENCE_SUFFIX
| USER_SEQUENCE_PREFIX | USER_SEQUENCE_SUFFIX | BOT_SEQUENCE_PREFIX
| BOT_SEQUENCE_SUFFIX | MESSAGE | GUILDNAME | CHANNELNAME | CURRENTDATETIME.

Definition value (token : t) : string :=
  match token with
  | AI_NAME => "AI_NAME"
  | PERSONA => "PERSONA"
  | IMAGE_COMING => "IMAGE_COMING"
  | IMAGE_PROMPT => "IMAGE_PROMPT"
  | IMAGE_TIMEOUT => "IMAGE_TIMEOUT"
  | EXAMPLE_DIALOGUE => "EXAMPLE_DIALOGUE"
  | MESSAGE_HISTORY => "MESSAGE_HISTORY"
  | SECTION_SEPARATOR => "SECTION_SEPARATOR"
  | NAME => "NAME"
  | USER_NAME => "USER_NAME"
  | BOT_NAME => "BOT_NAME"
  | SYSTEM_SEQUENCE_PREFIX => "SYSTEM_SEQUENCE_PREFIX"
  | SYSTEM_SEQUENCE_SUFFIX => "SYSTEM_SEQUENCE_SUFFIX"
  | USER_SEQUENCE_PREFIX => "USER_SEQUENCE_PREFIX"
  | USER_SEQUENCE_SUFFIX => "USER_SEQUENCE_SUFFIX"
  | BOT_SEQUENCE_PREFIX => "BOT_SEQUENCE_PREFIX"
  | BOT_SEQUENCE_SUFFIX => "BOT_SEQUENCE_SUFFIX"
  | MESSAGE => "MESSAGE"
  | GUILDNAME => "GUILDNAME"
  | CHANNELNAME => "CHANNELNAME"
  | CURRENTDATETIME => "CURRENTDATETIME"
  end.

(** [TemplateToken.__str__] *)
Definition str (token : t) : string :=
  ("{" ++ value token ++ "}")%string.

End TemplateToken.

(** [TemplateMessageFormatter] *)
Module TemplateMessageFormatter.

(** [find_all_ch(string, char)]: the indices the generator yields, in
    order; [i] is the index of the first character of [string]. *)
Fixpoint find_all_ch_from (i : nat) (string : String.string) (char : ascii)
    : list nat :=
  match string with
  | EmptyString => []
  | String letter rest =>
      if Ascii.eqb letter char
      then i :: find_all_ch_from (S i) rest char
      else find_all_ch_from (S i) rest char
  end.

Definition find_all_ch (string : String.string) (char : ascii) : list nat :=
  find_all_ch_from 0 string char.

(** The inner [for ... else] over [allowed_args] for one open brace: the
    index [idx_end] added to the set at the [break], or [None] when the
    loop ends without [break] and the [else] branch raises.  The slice
    [format_str[open_brace_idx : idx_end + 1]] is at most
    [len(allowed_arg) + 2] characters long. *)
Fixpoint match_allowed (format_str : string) (open_brace_idx : nat)
    (allowed_args : list TemplateToken.t) : option nat :=
  match allowed_args with
  | [] => None
  | allowed_arg :: rest =>
      let idx_end :=
        (open_brace_idx + String.length (TemplateToken.value allowed_arg)
         + 1)%nat in
      let next_substr :=
        substring open_brace_idx (idx_end + 1 - open_brace_idx) format_str in
      if String.eqb next_substr
           ("{" ++ TemplateToken.value allowed_arg ++ "}")%string
      then Some idx_end
      else match_allowed format_str open_brace_idx rest
  end.

(** The loop over the open braces: the set of allowed close-brace
    indices, or [None] when it raises. *)
Fixpoint scan_open_braces (format_str : string) (opens : list nat)
    (allowed_args : list TemplateToken.t)
    (allowed_close_brace_indices : gset nat) : option (gset nat) :=
  match opens with
  | [] => Some allowed_close_brace_indices
  | open_brace_idx :: rest =>
      match match_allowed format_str open_brace_idx allowed_args with
      | Some idx_end =>
          scan_open_braces format_str rest allowed_args
            ({[ idx_end ]} ∪ allowed_close_brace_indices)
      | None => None
      end
  end.

(** [_validate_format_string]: [true] when it returns, [false] when it
    raises [ValueError]. *)
Definition _validate_format_string (format_str : string)
    (allowed_args : list TemplateToken.t) : bool :=
  match scan_open_braces format_str (find_all_ch format_str "{")
          allowed_args ∅ with
  | None => false
  | Some allowed_close_brace_indices =>
      forallb (fun close_brace_idx =>
                 bool_decide (close_brace_idx ∈ allowed_close_brace_indices))
              (find_all_ch format_str "}")
  end.

(** The outcome of [str.format] called with keyword arguments.  The
    model covers format
    strings made of characters other than braces and of replacement
    fields [{NAME}] whose name is made of capital letters and
    underscores: such a field is replaced by the argument of that name,
    and a name without argument raises [KeyError].  Any other use of a
    brace is [Unmodelled]: nothing is said about it here. *)
Inductive format_result :=
| Formatted (text : string)
| KeyError (name : string)
| Unmodelled.

Definition prepend (text : string) (r : format_result) : format_result :=
  match r with
  | Formatted rest => Formatted (text ++ rest)
  | other => other
  end.

Definition is_field_name (name : string) : bool :=
  negb (String.eqb name EmptyString) &&
  all_chars (fun c => in_range 65 90 c || (code c =? 95)) name.

(** [field] is [None] outside a replacement field and the part of the
    name read so far inside one. *)
Fixpoint format_from (template : string) (field : option string)
    (format_args : gmap string string) : format_result :=
  match template with
  | EmptyString =>
      match field with
      | None => Formatted EmptyString
      | Some _ => Unmodelled
      end
  | String c rest =>
      match field with
      | None =>
          if Ascii.eqb c "{" then format_from rest (Some EmptyString) format_args
          else if Ascii.eqb c "}" then Unmodelled
          else prepend (String c EmptyString)
                 (format_from rest None format_args)
      | Some name =>
          if Ascii.eqb c "}" then
            if is_field_name name then
              match format_args !! name with
              | Some arg => prepend arg (format_from rest None format_args)
              | None => KeyError name
              end
            else Unmodelled
          else if Ascii.eqb c "{" then Unmodelled
          else format_from rest (Some (name ++ String c EmptyString)%string)
                 format_args
      end
  end.

(** A format string read as a sequence of pieces: a character that is
    not a brace, or a replacement field naming a token. *)
Inductive piece :=
| Text (c : ascii)
| Field (token : TemplateToken.t).

Definition is_brace (c : ascii) : bool :=
  Ascii.eqb c "{" || Ascii.eqb c "}".

Definition piece_ok (allowed : list TemplateToken.t) (p : piece) : Prop :=
  match p with
  | Text c => is_brace c = false
  | Field token => In token allowed
  end.

Fixpoint unparse (pieces : list piece) : string :=
  match pieces with
  | [] => EmptyString
  | Text c :: rest => String c (unparse rest)
  | Field token :: rest => (TemplateToken.str token ++ unparse rest)%string
  end.

(** The text with every field replaced by the argument named by its
    token; [KeyError] at the first field whose token has no argument. *)
Fixpoint substitute (format_args : gmap string string) (pieces : list piece)
    : format_result :=
  match pieces with
  | [] => Formatted EmptyString
  | Text c :: rest =>
      prepend (String c EmptyString) (substitute format_args rest)
  | Field token :: rest =>
      match format_args !! TemplateToken.value token with
      | Some arg => prepend arg (substitute format_args rest)
      | None => KeyError (TemplateToken.value token)
      end
  end.

(** The two facts validation establishes about the braces of the
    string. *)
Definition opens_matched (s : string) (allowed : list TemplateToken.t)
    : Prop :=
  forall i : nat,
    String.get i s = Some "{"%char ->
    exists token : TemplateToken.t,
      In token allowed /\
      substring i (String.length (TemplateToken.str token)) s =
        TemplateToken.str token.

Definition closes_matched (s : string) (allowed : list TemplateToken.t)
    : Prop :=
  forall j : nat,
    String.get j s = Some "}"%char ->
    exists (i : nat) (token : TemplateToken.t),
      In token allowed /\
      substring i (String.length (TemplateToken.str token)) s =
        TemplateToken.str token /\
      j = (i + String.length (TemplateToken.value token) + 1)%nat.

Record t := {
  template : string;
  allowed_tokens : list TemplateToken.t
}.

(** [__init__]: the formatter, or [None] when validation raises.  The
    name, purpose and prompt flag it also stores are not read again. *)
Definition init (template : string) (allowed_tokens : list TemplateToken.t)
    : option t :=
  if _validate_format_string template allowed_tokens
  then Some {| template := template; allowed_tokens := allowed_tokens |}
  else None.

(** [format]: the keys of [format_args] are the token values. *)
Definition format (self : t) (format_args : gmap string string)
    : format_result :=
  format_from (template self) None format_args.

End TemplateMessageFormatter.

(** The members of the enumeration [Templates] and their values. *)
Module Templates.

Inductive t :=
| COMMAND_LOBOTOMIZE_RESPONSE
| IMAGE_DETACH | IMAGE_CONFIRMATION | IMAGE_GENERATION_ERROR
| IMAGE_UNAUTHORIZED
| PROMPT | EXAMPLE_DIALOGUE | SECTION_SEPARATOR | USER_NAME | BOT_NAME
| SYSTEM_SEQUENCE_PREFIX | SYSTEM_SEQUENCE_SUFFIX
| USER_SEQUENCE_PREFIX | USER_SEQUENCE_SUFFIX
| BOT_SEQUENCE_PREFIX | BOT_SEQUENCE_SUFFIX
| USER_PROMPT_HISTORY_BLOCK | BOT_PROMPT_HISTORY_BLOCK
| PROMPT_IMAGE_COMING.

(** Also [__str__]. *)
Definition value (template : t) : string :=
  match template with
  | COMMAND_LOBOTOMIZE_RESPONSE => "command_lobotomize_response"
  | IMAGE_DETACH => "image_detach"
  | IMAGE_CONFIRMATION => "image_confirmation"
  | IMAGE_GENERATION_ERROR => "image_generation_error"
  | IMAGE_UNAUTHORIZED => "image_unauthorized"
  | PROMPT => "prompt"
  | EXAMPLE_DIALOGUE => "example_dialogue"
  | SECTION_SEPARATOR => "section_separator"
  | USER_NAME => "user_name"
  | BOT_NAME => "bot_name"
  | SYSTEM_SEQUENCE_PREFIX => "system_sequence_prefix"
  | SYSTEM_SEQUENCE_SUFFIX => "system_sequence_suffix"
  | USER_SEQUENCE_PREFIX => "user_sequence_prefix"
  | USER_SEQUENCE_SUFFIX => "user_sequence_suffix"
  | BOT_SEQUENCE_PREFIX => "bot_sequence_prefix"
  | BOT_SEQUENCE_SUFFIX => "bot_sequence_suffix"
  | USER_PROMPT_HISTORY_BLOCK => "user_prompt_history_block"
  | BOT_PROMPT_HISTORY_BLOCK => "bot_prompt_history_block"
  | PROMPT_IMAGE_COMING => "prompt_image_coming"
  end.

(** [__lt__]: [str(self.value) < str(other.value)], the order of strings
    by code points. *)
Definition lt (self other : t) : bool :=
  String.ltb (value self) (value other).

Definition members : list t :=
  [COMMAND_LOBOTOMIZE_RESPONSE; IMAGE_DETACH; IMAGE_CONFIRMATION;
   IMAGE_GENERATION_ERROR; IMAGE_UNAUTHORIZED; PROMPT; EXAMPLE_DIALOGUE;
   SECTION_SEPARATOR; USER_NAME; BOT_NAME; SYSTEM_SEQUENCE_PREFIX;
   SYSTEM_SEQUENCE_SUFFIX; USER_SEQUENCE_PREFIX; USER_SEQUENCE_SUFFIX;
   BOT_SEQUENCE_PREFIX; BOT_SEQUENCE_SUFFIX; USER_PROMPT_HISTORY_BLOCK;
   BOT_PROMPT_HISTORY_BLOCK; PROMPT_IMAGE_COMING].

(** The member with a given value. *)
Definition of_value (v : string) : option t :=
  find (fun template => String.eqb (value template) v) members.

#[global] Instance eq_dec : EqDecision t.
Proof. solve_decision. Defined.

#[global] Instance countable : Countable t :=
  inj_countable value of_value
    (fun template => match template with
                     | COMMAND_LOBOTOMIZE_RESPONSE => eq_refl
                     | _ => eq_refl
                     end).

End Templates.

(** [TemplateStore] *)
Module TemplateStore.

(** [TEMPLATES]: the allowed tokens of each template, in the order of
    the dictionary.  The description and the prompt flag of an entry are
    stored and not read. *)
Definition TEMPLATES : list (Templates.t * list TemplateToken.t) :=
  [(Templates.COMMAND_LOBOTOMIZE_RESPONSE,
    [TemplateToken.AI_NAME; TemplateToken.NAME]);
   (Templates.PROMPT,
    [TemplateToken.SYSTEM_SEQUENCE_PREFIX;
     TemplateToken.SYSTEM_SEQUENCE_SUFFIX; TemplateToken.AI_NAME;
     TemplateToken.IMAGE_COMING; TemplateToken.MESSAGE_HISTORY;
     TemplateToken.SECTION_SEPARATOR; TemplateToken.PERSONA;
     TemplateToken.CHANNELNAME; TemplateToken.GUILDNAME;
     TemplateToken.CURRENTDATETIME]);
   (Templates.EXAMPLE_DIALOGUE,
    [TemplateToken.USER_SEQUENCE_PREFIX; TemplateToken.USER_SEQUENCE_SUFFIX;
     TemplateToken.BOT_SEQUENCE_PREFIX; TemplateToken.BOT_SEQUENCE_SUFFIX;
     TemplateToken.AI_NAME]);
   (Templates.SECTION_SEPARATOR,
    [TemplateToken.SYSTEM_SEQUENCE_PREFIX;
     TemplateToken.SYSTEM_SEQUENCE_SUFFIX; TemplateToken.AI_NAME;
     TemplateToken.CURRENTDATETIME]);
   (Templates.USER_NAME, [TemplateToken.NAME]);
   (Templates.SYSTEM_SEQUENCE_PREFIX, []);
   (Templates.SYSTEM_SEQUENCE_SUFFIX, []);
   (Templates.USER_SEQUENCE_PREFIX, []);
   (Templates.USER_SEQUENCE_SUFFIX, []);
   (Templates.BOT_SEQUENCE_PREFIX, []);
   (Templates.BOT_SEQUENCE_SUFFIX, []);
   (Templates.BOT_NAME, [TemplateToken.NAME]);
   (Templates.USER_PROMPT_HISTORY_BLOCK,
    [TemplateToken.MESSAGE; TemplateToken.USER_NAME]);
   (Templates.BOT_PROMPT_HISTORY_BLOCK,
    [TemplateToken.MESSAGE; TemplateToken.BOT_NAME]);
   (Templates.PROMPT_IMAGE_COMING, [TemplateToken.AI_NAME]);
   (Templates.IMAGE_DETACH,
    [TemplateToken.IMAGE_PROMPT; TemplateToken.NAME]);
   (Templates.IMAGE_CONFIRMATION,
    [TemplateToken.IMAGE_PROMPT; TemplateToken.IMAGE_TIMEOUT;
     TemplateToken.NAME]);
   (Templates.IMAGE_GENERATION_ERROR,
    [TemplateToken.IMAGE_PROMPT; TemplateToken.NAME]);
   (Templates.IMAGE_UNAUTHORIZED, [TemplateToken.NAME])].

(** What [__init__] asks of one entry of [TEMPLATES]. *)
Definition entry_ok (settings : gmap string (option string))
    (entry : Templates.t * list TemplateToken.t) : Prop :=
  exists template_fmt : string,
    settings !! Templates.value (fst entry) = Some (Some template_fmt) /\
    TemplateMessageFormatter._validate_format_string template_fmt
      (snd entry) = true.

(** How [__init__] ends: with the dictionary [self.templates], with the
    [KeyError] of [settings[template_name]], or with a [ValueError] (a
    setting that is [None], or a format string that validation
    refuses). *)
Inductive init_result :=
| Built (templates : gmap Templates.t TemplateMessageFormatter.t)
| RaisedKeyError (key : string)
| RaisedValueError (template : Templates.t).

(** The loop of [__init__] over the entries of [TEMPLATES]. *)
Fixpoint add_templates (settings : gmap string (option string))
    (entries : list (Templates.t * list TemplateToken.t))
    (templates : gmap Templates.t TemplateMessageFormatter.t)
    : init_result :=
  match entries with
  | [] => Built templates
  | (template, tokens) :: rest =>
      match settings !! Templates.value template with
      | None => RaisedKeyError (Templates.value template)
      | Some None => RaisedValueError template
      | Some (Some template_fmt) =>
          match TemplateMessageFormatter.init template_fmt tokens with
          | None => RaisedValueError template
          | Some formatter =>
              add_templates settings rest (<[template := formatter]> templates)
          end
      end
  end.

Definition init (settings : gmap string (option string)) : init_result :=
  add_templates settings TEMPLATES ∅.

(** [format]: [None] for the [KeyError] of [self.templates[template_name]]. *)
Definition format (templates : gmap Templates.t TemplateMessageFormatter.t)
    (template_name : Templates.t) (format_args : gmap string string)
    : option TemplateMessageFormatter.format_result :=
  match templates !! template_name with
  | Some formatter =>
      Some (TemplateMessageFormatter.format formatter format_args)
  | None => None
  end.

End TemplateStore.

(** ** Notions used in the statements *)

(** Settings under which every template is the text "text", but for the
    bot name template, "{NAME}". *)
Definition sample_template_settings : gmap string (option string) :=
  <["bot_name" := Some "{NAME}"]>
    (list_to_map
       (map (fun template => (Templates.value template, Some "text"))
            Templates.members)).

(** The number of messages at the head of the list whose canonical text
    is [c]. *)
Fixpoint leading_repeats (c : string) (messages : list Message) : nat :=
  match messages with
  | [] => 0%nat
  | m :: rest =>
      if String.eqb (RepetitionTracker.make_canonical (content m)) c
      then S (leading_repeats c rest)
      else 0%nat
  end.

(** The messages of the sequence that were logged to the channel. *)
Definition messages_of (channel_id : Z) (events : list (Z * Message))
    : list Message :=
  map snd (List.filter (fun e => fst e =? channel_id) events).

(** The answers of [should_reply_to_message] to a sequence of messages,
    each with the clock and the random draw of its call, the bot of one
    call being the bot the call before left. *)
Fixpoint replies (self : DiscordBot.t)
    (events : list (Message * float * float)) : list bool :=
  match events with
  | [] => []
  | (message, now, random_sample) :: rest =>
      let '(answer, self') :=
        DiscordBot.should_reply_to_message self message now random_sample in
      answer :: replies self' rest
  end.

(** The sentences of a stream that pass the two filters of
    [send_response]: those equal to "<AI_NAME> says:" are left out, and
    the stream ends before the first other sentence ending with
    " says:". *)
Fixpoint kept_sentences (ai_name : string) (sentences : list string)
    : list string :=
  match sentences with
  | [] => []
  | sentence :: rest =>
      if String.eqb (ai_name ++ " says:") sentence
      then kept_sentences ai_name rest
      else if endswith sentence " says:" then []
      else sentence :: kept_sentences ai_name rest
  end.

(** Whether the loop of [send_response] leaves the stream by [break]:
    some sentence other than "<AI_NAME> says:" ends with " says:". *)
Fixpoint aborted (ai_name : string) (sentences : list string) : bool :=
  match sentences with
  | [] => false
  | sentence :: rest =>
      if String.eqb (ai_name ++ " says:") sentence
      then aborted ai_name rest
      else if endswith sentence " says:" then true
      else aborted ai_name rest
  end.

(** Sending every sentence of a list and logging each answer of the
    platform, up to the first call that raises; [fails_after] tells
    whether a failure follows the last sentence. *)
Fixpoint send_all {Channel : Type}
    (send : Channel -> string -> option (Message * Channel))
    (channel_id : Z) (sentences : list string) (fails_after : bool)
    (chan : Channel) (tracker : RepetitionTracker.t)
    : DiscordBot.outcome * Channel * RepetitionTracker.t :=
  match sentences with
  | [] =>
      (if fails_after then DiscordBot.Failed else DiscordBot.Done,
       chan, tracker)
  | sentence :: rest =>
      match send chan sentence with
      | None => (DiscordBot.Failed, chan, tracker)
      | Some (response_message, chan') =>
          send_all send channel_id rest fails_after chan'
            (RepetitionTracker.log_message tracker channel_id
               response_message)
      end
  end.

(** The messages the platform returns for the sentences of a list, up to
    the first call that raises. *)
Fixpoint responses {Channel : Type}
    (send : Channel -> string -> option (Message * Channel))
    (sentences : list string) (chan : Channel) : list Message :=
  match sentences with
  | [] => []
  | sentence :: rest =>
      match send chan sentence with
      | None => []
      | Some (response_message, chan') =>
          response_message :: responses send rest chan'
      end
  end.

(** A direct message to the sample bot, in the private channel 2. *)
Definition sample_dm (id : Z) (text : string) : Message :=
  {| message_id := id;
     content := text;
     author_id := 7;
     author_name := "bob";
     author_bot := false;
     guild_name := None;
     channel_id := 2;
     channel_private := true;
     mentions := [];
     created_at := 0%float |}.

(** The sample bot, told to ignore direct messages. *)
Definition sample_bot_ignoring_dms : DiscordBot.t :=
  {| DiscordBot.ai_name := "Rosie";
     DiscordBot.ai_user_id := 99;
     DiscordBot.user := Some 99;
     DiscordBot.ignore_dms := true;
     DiscordBot.settings := sample_settings;
     DiscordBot.wakeword_patterns := [word_boundary_pattern "bot"];
     DiscordBot.channel_last_direct_response := {[ 1 := 0%float ]};
     DiscordBot.discard_last_response_after_seconds := 120%float;
     DiscordBot.repetition_tracker := RepetitionTracker.init 1 |}.


(** The bot holds no last direct response for a private channel. *)
Definition no_private_entry (private_channel : Z -> bool)
    (self : DiscordBot.t) : Prop :=
  forall (c : Z) (last : float),
    DiscordBot.channel_last_direct_response self !! c = Some last ->
    private_channel c = false.

(** * Properties *)

Lemma FORBIDDEN_CHARACTERS_spec (c : ascii) :
  FORBIDDEN_CHARACTERS c = true <-> c = LF \/ c = CR \/ c = TAB.
Proof.
  unfold FORBIDDEN_CHARACTERS, code, LF, CR, TAB.
  split.
  - intros H. rewrite <- (ascii_N_embedding c).
    apply orb_prop in H as [H | H]; [apply orb_prop in H as [H | H] |];
      apply Z.eqb_eq in H;
      [left | right; left | right; right]; f_equal; lia.
  - intros [-> | [-> | ->]]; reflexivity.
Qed.

Lemma sanitize_string_length (s : string) :
  String.length (sanitize_string s) = String.length s.
Proof. induction s as [| c s IH]; simpl; congruence. Qed.

Lemma sanitize_string_get (s : string) (i : nat) :
  String.get i (sanitize_string s) =
  option_map (fun c => if FORBIDDEN_CHARACTERS c then " "%char else c)
             (String.get i s).
Proof.
  revert i; induction s as [| c s IH]; intros [| i]; simpl; auto.
Qed.

Lemma sanitize_string_clean (s : string) (c : ascii) :
  occurs c (sanitize_string s) -> FORBIDDEN_CHARACTERS c = false.
Proof.
  induction s as [| d s IH]; simpl; [tauto |].
  intros [<- | H]; auto.
  destruct (FORBIDDEN_CHARACTERS d) eqn:E; [reflexivity | exact E].
Qed.

(** C7. [sanitize_string] keeps the length of its argument; at every
    position a newline, carriage return or tab becomes exactly one space
    and any other character is unchanged; the result holds no newline,
    carriage return or tab; and sanitizing twice is sanitizing once. *)
Theorem sanitize_string_correct (s : string) :
  String.length (sanitize_string s) = String.length s /\
  (forall (i : nat) (c : ascii),
      String.get i s = Some c ->
      (c = LF \/ c = CR \/ c = TAB ->
       String.get i (sanitize_string s) = Some " "%char) /\
      (c <> LF -> c <> CR -> c <> TAB ->
       String.get i (sanitize_string s) = Some c)) /\
  ~ occurs LF (sanitize_string s) /\
  ~ occurs CR (sanitize_string s) /\
  ~ occurs TAB (sanitize_string s) /\
  sanitize_string (sanitize_string s) = sanitize_string s.
Proof.
  split; [apply sanitize_string_length |].
  split.
  { intros i c Hc. rewrite sanitize_string_get, Hc. simpl.
    split.
    - intros H. apply FORBIDDEN_CHARACTERS_spec in H. now rewrite H.
    - intros H1 H2 H3.
      destruct (FORBIDDEN_CHARACTERS c) eqn:E; [| reflexivity].
      apply FORBIDDEN_CHARACTERS_spec in E. tauto. }
  repeat split.
  1-3: intros H; apply sanitize_string_clean in H; discriminate H.
  induction s as [| c s IH]; simpl; [reflexivity |].
  rewrite IH. f_equal.
  destruct (FORBIDDEN_CHARACTERS c) eqn:E; [reflexivity | now rewrite E].
Qed.

Example sanitize_string_example :
  sanitize_string (String LF ("a" ++ String TAB ("b" ++ String CR "c")))
  = " a b c".
Proof. reflexivity. Qed.

Example make_canonical_example :
  RepetitionTracker.make_canonical (String TAB "  Ok. THANKS  ")
  = "ok. thanks".
Proof. reflexivity. Qed.

(** ** RepetitionTracker *)

Section TrackerFacts.
Import RepetitionTracker.

Lemma lstrip_blank (s : string) : blank s = true -> lstrip s = EmptyString.
Proof.
  induction s as [| c s IH]; simpl; [reflexivity |].
  intros [Hc Hs]%andb_prop. now rewrite Hc, IH.
Qed.

Lemma make_canonical_blank (s : string) :
  blank s = true -> make_canonical s = EmptyString.
Proof.
  intros H. unfold make_canonical, strip. now rewrite lstrip_blank.
Qed.

(** What one call of [log_message] leaves in the entry of its channel. *)
Lemma log_message_entry (self : t) (ch : Z) (m : Message) :
  repetition_count (log_message self ch m) !! ch =
  Some (make_canonical (content m),
        if should_throttle self (next_count self ch m)
        then message_id m
        else default 0 (get_throttle_message_id self ch),
        next_count self ch m).
Proof.
  unfold log_message, next_count, last_message, count,
    get_throttle_message_id.
  destruct (repetition_count self !! ch) as [[[l b] n] |]; simpl;
    now rewrite lookup_insert_eq.
Qed.

Lemma log_message_other (self : t) (ch other : Z) (m : Message) :
  other <> ch ->
  repetition_count (log_message self ch m) !! other =
  repetition_count self !! other.
Proof.
  intros Hne. unfold log_message.
  destruct (default _ _) as [[l b] n]; simpl.
  now rewrite lookup_insert_ne.
Qed.

Lemma log_message_threshold (self : t) (ch : Z) (m : Message) :
  repetition_threshold (log_message self ch m) = repetition_threshold self.
Proof.
  unfold log_message. now destruct (default _ _) as [[l b] n].
Qed.

Lemma log_message_last (self : t) (ch : Z) (m : Message) :
  last_message (log_message self ch m) ch = make_canonical (content m).
Proof. unfold last_message. now rewrite log_message_entry. Qed.

Lemma log_message_count (self : t) (ch : Z) (m : Message) :
  count (log_message self ch m) ch = next_count self ch m.
Proof. unfold count. now rewrite log_message_entry. Qed.

Lemma log_message_boundary (self : t) (ch : Z) (m : Message) :
  get_throttle_message_id (log_message self ch m) ch =
  Some (if should_throttle self (next_count self ch m)
        then message_id m
        else default 0 (get_throttle_message_id self ch)).
Proof.
  unfold get_throttle_message_id at 1. now rewrite log_message_entry.
Qed.

Lemma log_messages_snoc (self : t) (ch : Z) (ms : list Message) (m : Message) :
  log_messages self ch (ms ++ [m]) = log_message (log_messages self ch ms) ch m.
Proof. unfold log_messages. now rewrite fold_left_app. Qed.

Lemma log_messages_threshold (self : t) (ch : Z) (ms : list Message) :
  repetition_threshold (log_messages self ch ms) = repetition_threshold self.
Proof.
  induction ms as [| m ms IH] using rev_ind; [reflexivity |].
  now rewrite log_messages_snoc, log_message_threshold.
Qed.

(** After a run of messages with one canonical text in a channel that had
    no entry, the stored text is that text and the counter is at least the
    length of the run minus one. *)
Lemma same_text_run (self : t) (ch : Z) (c : string) (ms : list Message) :
  repetition_count self !! ch = None ->
  Forall (fun m => make_canonical (content m) = c) ms ->
  ms <> [] ->
  last_message (log_messages self ch ms) ch = c /\
  Z.of_nat (length ms) - 1 <= count (log_messages self ch ms) ch.
Proof.
  intros Hfresh.
  induction ms as [| m ms IH] using rev_ind; [congruence |].
  intros [Hms Hm]%Forall_app _.
  apply Forall_inv in Hm.
  rewrite log_messages_snoc, log_message_last, log_message_count.
  split; [exact Hm |].
  rewrite length_app; simpl.
  unfold next_count. rewrite Hm.
  destruct ms as [| m0 ms0].
  - cbn. unfold last_message, count. rewrite Hfresh.
    destruct (String.eqb _ _); lia.
  - destruct IH as [Hlast Hcount]; [exact Hms | discriminate |].
    rewrite Hlast, String.eqb_refl. lia.
Qed.

End TrackerFacts.

Section TrackerClaims.
Import RepetitionTracker.

(** C1. One call of [log_message] canonicalizes the text by [strip] then
    [lower]; the counter becomes the old counter plus one when the
    canonical text equals the text stored for the channel and zero
    otherwise; when the new counter is at least the threshold the boundary
    becomes this message's id and otherwise keeps its value; the stored
    text becomes the new canonical text; other channels and the threshold
    are untouched.  Consequently, in a channel without an entry, a run of
    threshold+1 messages with one canonical text leaves the boundary equal
    to the id of the last message of the run. *)
Theorem log_message_correct (self : t) (ch : Z) (m : Message) :
  let sentence := lower (strip (content m)) in
  let n := if String.eqb (last_message self ch) sentence
           then count self ch + 1 else 0 in
  let self' := log_message self ch m in
  last_message self' ch = sentence /\
  count self' ch = n /\
  get_throttle_message_id self' ch =
    Some (if n >=? repetition_threshold self then message_id m
          else default 0 (get_throttle_message_id self ch)) /\
  repetition_threshold self' = repetition_threshold self /\
  (forall other : Z, other <> ch ->
     repetition_count self' !! other = repetition_count self !! other) /\
  (forall (ms : list Message) (final : Message),
     repetition_count self !! ch = None ->
     Forall (fun m' => make_canonical (content m') =
                       make_canonical (content final)) ms ->
     Z.of_nat (length (ms ++ [final])) = repetition_threshold self + 1 ->
     get_throttle_message_id (log_messages self ch (ms ++ [final])) ch =
       Some (message_id final)).
Proof.
  cbv zeta.
  split; [apply log_message_last |].
  split; [apply log_message_count |].
  split; [apply log_message_boundary |].
  split; [apply log_message_threshold |].
  split; [intros other Hne; now apply log_message_other |].
  intros ms final Hfresh Hsame Hlen.
  rewrite log_messages_snoc, log_message_boundary.
  unfold should_throttle. rewrite log_messages_threshold.
  rewrite length_app in Hlen; simpl in Hlen.
  assert (Hge : repetition_threshold self <=
                next_count (log_messages self ch ms) ch final).
  { unfold next_count. destruct ms as [| m0 ms0].
    - simpl in *. destruct (String.eqb _ _); unfold count;
        try rewrite Hfresh; lia.
    - destruct (same_text_run self ch _ (m0 :: ms0) Hfresh Hsame)
        as [Hlast Hcount]; [discriminate |].
      rewrite Hlast, String.eqb_refl. lia. }
  apply Z.geb_le in Hge. now rewrite Hge.
Qed.

(** Threshold 1: the second of two messages with one canonical text
    becomes the boundary, and a third one replaces it. *)
Example repeated_message_sets_boundary :
  get_throttle_message_id
    (log_messages (init 1) 1 [bot_message 5 "ok."]) 1 = Some 0 /\
  get_throttle_message_id
    (log_messages (init 1) 1 [bot_message 5 "ok."; bot_message 6 " OK."]) 1
    = Some 6 /\
  get_throttle_message_id
    (log_messages (init 1) 1
       [bot_message 5 "ok."; bot_message 6 " OK."; bot_message 7 "ok."]) 1
    = Some 7.
Proof. repeat split. Qed.






Lemma never_throttled_placeholder (self : t) (ch : Z)
    (events : list (Z * Message)) :
  never_throttled self ch events ->
  get_throttle_message_id self ch = Some 0 ->
  get_throttle_message_id (log_events self events) ch = Some 0.
Proof.
  revert self. induction events as [| [c m] events IH]; intros self; simpl.
  - auto.
  - intros [Hnow Hlater] Hget. apply IH; [exact Hlater |].
    destruct (decide (c = ch)) as [-> | Hne].
    + rewrite log_message_boundary, Hnow, Hget; reflexivity.
    + unfold get_throttle_message_id in *. now rewrite log_message_other.
Qed.

Lemma never_throttled_fresh (self : t) (ch : Z)
    (events : list (Z * Message)) :
  never_throttled self ch events ->
  get_throttle_message_id self ch = None ->
  get_throttle_message_id (log_events self events) ch =
  if existsb (fun e => fst e =? ch) events then Some 0 else None.
Proof.
  revert self. induction events as [| [c m] events IH]; intros self; simpl.
  - auto.
  - intros [Hnow Hlater] Hget.
    destruct (Z.eqb_spec c ch) as [-> | Hne]; simpl.
    + apply never_throttled_placeholder; [exact Hlater |].
      rewrite log_message_boundary, Hnow, Hget; reflexivity.
    + apply IH; [exact Hlater |].
      unfold get_throttle_message_id in *. now rewrite log_message_other.
Qed.

(** C9. [get_throttle_message_id] returns the boundary stored for the
    channel.  When nothing is recorded it returns an empty value: [None]
    for a channel without an entry (in particular for every channel of a
    new tracker), and, after messages were logged to the channel without
    [should_throttle] ever answering true, the placeholder [0] that
    [log_message] stores, which is false as a condition like [None]. *)
Theorem get_throttle_message_id_correct :
  (forall (self : t) (ch : Z) (l : string) (b n : Z),
     repetition_count self !! ch = Some (l, b, n) ->
     get_throttle_message_id self ch = Some b) /\
  (forall (self : t) (ch : Z),
     repetition_count self !! ch = None ->
     get_throttle_message_id self ch = None) /\
  (forall threshold ch : Z,
     get_throttle_message_id (init threshold) ch = None) /\
  (forall (threshold ch : Z) (events : list (Z * Message)),
     never_throttled (init threshold) ch events ->
     get_throttle_message_id (log_events (init threshold) events) ch =
       (if existsb (fun e => fst e =? ch) events then Some 0 else None) /\
     truthy (get_throttle_message_id
               (log_events (init threshold) events) ch) = false).
Proof.
  split; [| split; [| split]].
  - intros self ch l b n H. unfold get_throttle_message_id. now rewrite H.
  - intros self ch H. unfold get_throttle_message_id. now rewrite H.
  - reflexivity.
  - intros threshold ch events H.
    rewrite (never_throttled_fresh _ _ _ H eq_refl).
    split; [reflexivity |]. now destruct (existsb _ _).
Qed.

(** C10. In a channel without an entry the stored text defaults to the
    empty string.  A first message whose content is empty or whitespace
    only canonicalizes to the empty string, so it counts as a repetition:
    the counter becomes 1, not 0, and with a threshold of 1 the boundary
    is the id of this first message. *)
Theorem first_blank_message_throttles (self : t) (ch : Z) (m : Message) :
  repetition_count self !! ch = None ->
  blank (content m) = true ->
  last_message self ch = EmptyString /\
  make_canonical (content m) = EmptyString /\
  count (log_message self ch m) ch = 1 /\
  (repetition_threshold self = 1 ->
   get_throttle_message_id (log_message self ch m) ch =
     Some (message_id m)).
Proof.
  intros Hfresh Hblank.
  assert (Hlast : last_message self ch = EmptyString).
  { unfold last_message. now rewrite Hfresh. }
  assert (Hn : next_count self ch m = 1).
  { unfold next_count, count.
    now rewrite Hlast, (make_canonical_blank _ Hblank), Hfresh. }
  split; [exact Hlast |].
  split; [now apply make_canonical_blank |].
  split; [now rewrite log_message_count |].
  intros Hthr. rewrite log_message_boundary, Hn.
  unfold should_throttle. now rewrite Hthr.
Qed.

(** A first message of two spaces, threshold 1. *)
Lemma first_blank_message_throttles_witness :
  count (log_message (init 1) 1 (bot_message 7 "  ")) 1 = 1 /\
  get_throttle_message_id (log_message (init 1) 1 (bot_message 7 "  ")) 1 =
    Some 7.
Proof.
  destruct (first_blank_message_throttles (init 1) 1 (bot_message 7 "  "))
    as (_ & _ & Hcount & Hget); [reflexivity | reflexivity |].
  split; [exact Hcount | apply Hget; reflexivity].
Defined.

End TrackerClaims.

(** ** PromptGenerator.generate_history *)

Section HistoryFacts.
Import PromptGenerator.

Lemma len_append (a b : string) : len (a ++ b)%string = len a + len b.
Proof.
  unfold len. induction a as [| c a IH].
  - reflexivity.
  - change (String c a ++ b)%string with (String c (a ++ b)).
    cbn [String.length]. rewrite !Nat2Z.inj_succ, IH. lia.
Qed.

Lemma len_join (lines : list string) : len (join lines) = total_len lines.
Proof.
  induction lines as [| l lines IH]; simpl; [reflexivity |].
  now rewrite len_append, IH.
Qed.

Lemma total_len_app (xs ys : list string) :
  total_len (xs ++ ys) = total_len xs + total_len ys.
Proof. induction xs as [| x xs IH]; simpl; lia. Qed.

Lemma total_len_rev (xs : list string) : total_len (rev xs) = total_len xs.
Proof.
  induction xs as [| x xs IH]; simpl; [reflexivity |].
  rewrite total_len_app; simpl. lia.
Qed.

(** The loop collects, after the lines it started with, the candidates
    that fit the budget. *)
Lemma history_loop_take (self : t) (ai : Z) (stop : option Z)
    (history : list Message) (remaining : Z) (lines : list string) :
  history_loop self ai stop history remaining lines =
  lines ++ take_budget remaining (candidates self ai stop history).
Proof.
  revert remaining lines.
  induction history as [| m older IH]; intros remaining lines; simpl.
  - now rewrite app_nil_r.
  - destruct (at_throttle stop m); [now rewrite app_nil_r |].
    unfold render.
    destruct (_ && contains _ _); [apply IH |].
    destruct (String.eqb _ _); [apply IH |].
    simpl. destruct (_ >? _); [now rewrite app_nil_r |].
    now rewrite IH, <- app_assoc.
Qed.

Lemma take_budget_split (remaining : Z) (lines : list string) :
  exists rest : list string,
    lines = take_budget remaining lines ++ rest /\
    match rest with
    | [] => True
    | line :: _ =>
        len line > remaining - total_len (take_budget remaining lines)
    end.
Proof.
  revert remaining.
  induction lines as [| l lines IH]; intros remaining; simpl.
  - exists []. auto.
  - destruct (len l >? remaining) eqn:E.
    + exists (l :: lines). split; [reflexivity |].
      simpl. apply Z.gtb_gt in E. lia.
    + destruct (IH (remaining - len l)) as (rest & Heq & Hrest).
      exists rest. split; [simpl; congruence |].
      destruct rest; [exact I |].
      change (total_len (l :: take_budget (remaining - len l) lines))
        with (len l + total_len (take_budget (remaining - len l) lines)).
      lia.
Qed.

Lemma take_budget_fits (remaining : Z) (lines : list string) :
  0 <= remaining -> total_len (take_budget remaining lines) <= remaining.
Proof.
  revert remaining.
  induction lines as [| l lines IH]; intros remaining Hpos; simpl; [lia |].
  destruct (len l >? remaining) eqn:E; simpl; [lia |].
  assert (~ len l > remaining) by (rewrite <- Z.gtb_gt; congruence).
  specialize (IH (remaining - len l)). lia.
Qed.

Lemma candidates_cut (self : t) (ai k : Z) (newer older : list Message)
    (m : Message) :
  k <> 0 -> message_id m = k ->
  candidates self ai (Some k) (newer ++ m :: older) =
  candidates self ai (Some k) newer.
Proof.
  intros Hk Hm.
  induction newer as [| n newer IH]; simpl.
  - unfold at_throttle; simpl.
    rewrite Hm, Z.eqb_refl.
    destruct (Z.eqb_spec k 0); [contradiction | reflexivity].
  - destruct (at_throttle _ n); [reflexivity |].
    now rewrite IH.
Qed.

(** A generator that was constructed has a budget of at least the
    reserved history size, so a budget below zero does not occur when the
    two settings it is the product of are not negative. *)
Lemma init_history_available_chars_budget (s : Settings) (est : Z)
    (possible_prompt : string) (budget : Z) :
  0 <= DISCORD_HISTORY_LINES_TO_SUPPLY s *
       DISCORD_HISTORY_EST_CHARACTERS_PER_LINE s ->
  init_history_available_chars s est possible_prompt = Some budget ->
  0 <= budget.
Proof.
  unfold init_history_available_chars. intros Hpos.
  destruct (_ <? _) eqn:E; [discriminate |].
  intros [= <-]. apply Z.ltb_ge in E. lia.
Qed.

(** C2. With a budget of B characters, B at least zero, the history that
    [generate_history] returns is at most B characters long.  It is made
    of whole lines: the candidate lines (newest first) split into the
    lines taken and the rest, the history is the taken lines in reverse
    order, oldest first, joined with nothing between them, and the first
    line left out, if there is one, is longer than what remained of the
    budget. *)
Theorem generate_history_within_budget (self : t) (ai : Z)
    (history : list Message) (stop : option Z) :
  0 <= max_history_chars self ->
  len (generate_history self ai history stop) <= max_history_chars self /\
  exists taken rest : list string,
    candidates self ai stop history = taken ++ rest /\
    generate_history self ai history stop = join (rev taken) /\
    len (generate_history self ai history stop) = total_len taken /\
    match rest with
    | [] => True
    | line :: _ => len line > max_history_chars self - total_len taken
    end.
Proof.
  intros Hpos. unfold generate_history.
  rewrite history_loop_take; simpl.
  set (lines := candidates self ai stop history).
  set (B := max_history_chars self) in *.
  rewrite len_join, total_len_rev.
  split; [now apply take_budget_fits |].
  destruct (take_budget_split B lines) as (rest & Heq & Hrest).
  exists (take_budget B lines), rest. auto.
Qed.

(** Twenty lines of thirty characters under a budget of 400: thirteen
    lines, 390 characters, are kept. *)
Lemma generate_history_within_budget_witness :
  len (generate_history (sample_generator 400) 99 thirty_char_history None)
    <= 400 /\
  len (generate_history (sample_generator 400) 99 thirty_char_history None)
    = 390.
Proof.
  split.
  - apply (generate_history_within_budget (sample_generator 400) 99
             thirty_char_history None).
    simpl. lia.
  - reflexivity.
Defined.

(** C3. For every boundary id k that is not [None]: when the scan,
    newest first, reaches the message whose id is k it stops before it.
    The history built from a sequence that holds that message is the
    history built from the messages that come before it alone, so neither
    the message with id k nor any older one contributes to it.  The
    message is one of a Discord history, whose ids are never 0. *)
Theorem generate_history_stops_at_boundary (self : t) (ai k : Z)
    (newer older : list Message) (m : Message) :
  message_id m <> 0 ->
  message_id m = k ->
  candidates self ai (Some k) (newer ++ m :: older) =
    candidates self ai (Some k) newer /\
  generate_history self ai (newer ++ m :: older) (Some k) =
    generate_history self ai newer (Some k).
Proof.
  intros Hid Hm.
  assert (Hk : k <> 0) by congruence.
  split; [now apply candidates_cut |].
  unfold generate_history.
  now rewrite !history_loop_take, candidates_cut.
Qed.

(** Boundary 2: the messages 2 and 1 leave the history as it is without
    them. *)
Lemma generate_history_stops_at_boundary_witness :
  generate_history (sample_generator 400) 99
    ([sample_message 3 7 "bob" "new"] ++ sample_message 2 7 "bob" "at"
       :: [sample_message 1 7 "bob" "old"]) (Some 2) =
  generate_history (sample_generator 400) 99
    [sample_message 3 7 "bob" "new"] (Some 2).
Proof.
  apply (generate_history_stops_at_boundary (sample_generator 400) 99 2
           [sample_message 3 7 "bob" "new"]
           [sample_message 1 7 "bob" "old"]
           (sample_message 2 7 "bob" "at")).
  - discriminate.
  - reflexivity.
Defined.

End HistoryFacts.

(** ** The unsolicited-response draw *)

Section UnsolicitedFacts.
Import DiscordBot.

Lemma SF_lt_le_trans (a b c : spec_float) :
  SFltb a b = true -> SFleb b c = true -> SFltb a c = true.
Proof.
  unfold SFltb, SFleb, SFcompare.
  destruct a as [sa | sa | | sa ma ea], b as [sb | sb | | sb mb eb],
    c as [sc | sc | | sc mc ec];
    repeat match goal with s : bool |- _ => destruct s end;
    try (intros; (reflexivity || discriminate));
    change (Pos.compare_cont Eq) with Pos.compare;
    destruct (Z.compare_spec ea eb), (Z.compare_spec eb ec),
      (Z.compare_spec ea ec); try lia;
    try (intros; (reflexivity || discriminate));
    destruct (Pos.compare_spec ma mb), (Pos.compare_spec mb mc),
      (Pos.compare_spec ma mc); try lia;
    try (intros; (reflexivity || discriminate)).
Qed.

(** On binary64 floats, [x < y] and [y <= z] give [x < z]. *)
Lemma float_lt_le_trans (x y z : float) :
  PrimFloat.ltb x y = true -> PrimFloat.leb y z = true ->
  PrimFloat.ltb x z = true.
Proof. rewrite !ltb_spec, leb_spec. apply SF_lt_le_trans. Qed.

Lemma base_chance_find (table : list (float * float)) (elapsed : float) :
  base_chance table elapsed =
  match find (fun entry => PrimFloat.ltb elapsed (fst entry)) table with
  | Some entry => snd entry
  | None => 0%float
  end.
Proof.
  induction table as [| [duration chance] table IH]; simpl; [reflexivity |].
  now destruct (PrimFloat.ltb elapsed duration).
Qed.

(** A string has one last character: the two suffix tests of
    [should_send_unsolicited_response] never both succeed. *)
Lemma question_excludes_exclamation (s : string) :
  endswith s "?" = true -> endswith s "!" = false.
Proof.
  induction s as [| c s IH]; [discriminate |].
  cbn [endswith].
  intros [H | H]%orb_prop.
  - apply String.eqb_eq in H. injection H as -> ->. reflexivity.
  - rewrite (IH H), orb_false_r.
    apply String.eqb_neq. intros E. injection E as -> ->. discriminate H.
Qed.

(** C5, as stated, fails in its remark that the bonus can double: a
    content has one last character, so the two suffix tests never both
    succeed and at most one bonus is added.  "what?!" ends with '!' only
    and gets 0.75 + 0.5, one bonus. *)
Lemma bonus_never_doubles :
  endswith "what?!" "?" = false /\
  endswith "what?!" "!" = true /\
  response_chance sample_bot
    (sample_message 8 7 "bob" "what?!") 0%float = 1.25%float /\
  (forall s : string,
     ~ (endswith s "?" = true /\ endswith s "!" = true)).
Proof.
  repeat split.
  intros s [Hq Hb]. apply question_excludes_exclamation in Hq. congruence.
Qed.

(** C5, amended.  For a message in a channel with a recorded last direct
    response: the response chance is the chance of the first table entry
    whose duration is strictly above the elapsed time (0.0 when there is
    none), to which the two suffix tests, made one after the other, add
    the bonus when the content ends with '?' and when it ends with '!';
    the two never both succeed, so the chance is the base chance plus
    one bonus when the content ends with '?' or with '!' and the base
    chance otherwise; the bot responds exactly when the random sample is
    strictly below that chance; and a chance of 1.0 or more makes it
    respond for every sample below 1. *)
Theorem unsolicited_response_chance (self : t) (message : Message)
    (last : float) :
  channel_last_direct_response self !! channel_id message = Some last ->
  let elapsed := PrimFloat.sub (created_at message) last in
  let bonus := DISCORD_INTERROBANG_BONUS (settings self) in
  let base :=
    match find (fun entry => PrimFloat.ltb elapsed (fst entry))
               (DISCORD_TIME_VS_RESPONSE_CHANCE (settings self)) with
    | Some entry => snd entry
    | None => 0%float
    end in
  let after_question :=
    if endswith (content message) "?" then PrimFloat.add base bonus
    else base in
  let total :=
    if endswith (content message) "!" then PrimFloat.add after_question bonus
    else after_question in
  response_chance self message last = total /\
  ~ (endswith (content message) "?" = true /\
     endswith (content message) "!" = true) /\
  total = (if endswith (content message) "?" || endswith (content message) "!"
           then PrimFloat.add base bonus
           else base) /\
  (forall sample : float,
     should_send_unsolicited_response self message sample =
     PrimFloat.ltb sample total) /\
  (forall sample : float,
     PrimFloat.leb 1%float total = true ->
     PrimFloat.ltb sample 1%float = true ->
     should_send_unsolicited_response self message sample = true).
Proof.
  intros Hlast elapsed bonus base after_question total.
  assert (Htotal : response_chance self message last = total).
  { unfold response_chance. now rewrite base_chance_find. }
  assert (Hdraw : forall sample,
             should_send_unsolicited_response self message sample =
             PrimFloat.ltb sample total).
  { intros sample. unfold should_send_unsolicited_response.
    now rewrite Hlast, Htotal. }
  split; [exact Htotal |].
  split.
  { intros [Hq Hb]. apply question_excludes_exclamation in Hq. congruence. }
  split.
  { subst total after_question.
    destruct (endswith (content message) "?") eqn:Hq; [| reflexivity].
    now rewrite (question_excludes_exclamation _ Hq). }
  split; [exact Hdraw |].
  intros sample Hone Hsample. rewrite Hdraw.
  now apply float_lt_le_trans with (y := 1%float).
Qed.

(** Five seconds after the last direct response, a message ending with
    '?' has chance 0.75 + 0.5, and the bot responds whatever the draw. *)
Lemma unsolicited_response_chance_witness :
  response_chance sample_bot
    (sample_message 8 7 "bob" "really?") 0%float = 1.25%float /\
  should_send_unsolicited_response sample_bot
    (sample_message 8 7 "bob" "really?") 0.875%float = true.
Proof.
  destruct (unsolicited_response_chance sample_bot
              (sample_message 8 7 "bob" "really?") 0%float)
    as (Htotal & _ & _ & _ & Hsure); [reflexivity |].
  split.
  - rewrite Htotal. reflexivity.
  - apply Hsure; reflexivity.
Defined.

End UnsolicitedFacts.

(** ** The sentence loop of send_response *)

Section SendFacts.
Import DiscordBot.

Variable Channel : Type.
Variable send : Channel -> string -> option (Message * Channel).

(** C6. In one pass over the sentence stream, however the stream ends,
    a sentence equal to "<AI_NAME> says:" is dropped and the loop goes
    on with the next sentence: the pass has the same result as the pass
    over the stream without it.  Any other sentence ending with " says:"
    is dropped and ends the pass: the result is that of the pass over
    the sentences before it alone, so nothing after it is sent to the
    channel or logged in the repetition tracker (nor is the stream asked
    for more, so a failure it would have raised later does not occur). *)
Theorem sentence_loop_filters (ai_name : string) (channel_id : Z)
    (before after : list string) (sentence : string)
    (stream_raises : bool) (chan : Channel)
    (tracker : RepetitionTracker.t) :
  (sentence = (ai_name ++ " says:")%string ->
   sentence_loop Channel send ai_name channel_id
     (before ++ sentence :: after) stream_raises chan tracker =
   sentence_loop Channel send ai_name channel_id
     (before ++ after) stream_raises chan tracker) /\
  (sentence <> (ai_name ++ " says:")%string ->
   endswith sentence " says:" = true ->
   sentence_loop Channel send ai_name channel_id
     (before ++ sentence :: after) stream_raises chan tracker =
   sentence_loop Channel send ai_name channel_id before false chan tracker).
Proof.
  split.
  - intros ->. revert chan tracker.
    induction before as [| s before IH]; intros chan tracker; simpl.
    + now rewrite String.eqb_refl.
    + destruct (String.eqb _ s); [apply IH |].
      destruct (endswith s _); [reflexivity |].
      destruct (send chan s) as [[m chan'] |]; [apply IH | reflexivity].
  - intros Hne Hends. revert chan tracker.
    induction before as [| s before IH]; intros chan tracker; simpl.
    + apply not_eq_sym, String.eqb_neq in Hne. now rewrite Hne, Hends.
    + destruct (String.eqb _ s); [apply IH |].
      destruct (endswith s _); [reflexivity |].
      destruct (send chan s) as [[m chan'] |]; [apply IH | reflexivity].
Qed.

End SendFacts.

(** With AI name "Rosie": "Rosie says:" is skipped, "Bob says:" ends the
    response, and only the two sentences before it are sent and logged,
    whether or not the stream would have raised later; a stream that
    raises after two sentences ends in the failure handler with both
    sent. *)
Example sentence_loop_scenario :
  (forall stream_raises : bool,
     DiscordBot.sentence_loop (list Message) sample_send "Rosie" 1
       ["Hello."; "Rosie says:"; "Hello."; "Bob says:"; "I am Bob."]
       stream_raises [] (RepetitionTracker.init 1) =
     (DiscordBot.Done,
      [bot_message 1 "Hello."; bot_message 2 "Hello."],
      RepetitionTracker.log_messages (RepetitionTracker.init 1) 1
        [bot_message 1 "Hello."; bot_message 2 "Hello."])) /\
  DiscordBot.sentence_loop (list Message) sample_send "Rosie" 1
    ["Hello."; "Hello."] true [] (RepetitionTracker.init 1) =
  (DiscordBot.Failed,
   [bot_message 1 "Hello."; bot_message 2 "Hello."],
   RepetitionTracker.log_messages (RepetitionTracker.init 1) 1
     [bot_message 1 "Hello."; bot_message 2 "Hello."]).
Proof. split; [intros stream_raises |]; reflexivity. Qed.

(** ** Wake-words and the direct response *)

Section WakewordFacts.
Import DiscordBot.












Example search_examples :
  compile_wakeword "oobabot" = Some (word_boundary_pattern "oobabot") /\
  compile_wakeword "mr.bot" = None /\
  search (word_boundary_pattern "oobabot") "hey oobabot, how are you?"
    = true /\
  search (word_boundary_pattern "bot") "a BOT." = true /\
  search (word_boundary_pattern "bot") "robotics" = false /\
  search (word_boundary_pattern "bot") "bot_2" = false /\
  search (word_boundary_pattern "@bot") "hey @bot hi" = false /\
  search (word_boundary_pattern "@bot") "hey x@bot hi" = true.
Proof. repeat split. Qed.




End WakewordFacts.

(** ** templates.py: validation and formatting *)

Section TemplateFacts.
Import TemplateMessageFormatter.

Lemma string_app_assoc (a b c : string) :
  ((a ++ b) ++ c = a ++ (b ++ c))%string.
Proof.
  induction a as [| x a IH]; [reflexivity |].
  change (String x ((a ++ b) ++ c) = String x (a ++ (b ++ c)))%string.
  now rewrite IH.
Qed.

Lemma string_length_app (a b : string) :
  String.length (a ++ b)%string = (String.length a + String.length b)%nat.
Proof.
  induction a as [| x a IH]; [reflexivity |].
  change (S (String.length (a ++ b)%string) =
          S (String.length a + String.length b)).
  now rewrite IH.
Qed.

Lemma get_app_r (pre r : string) (k : nat) :
  String.get (String.length pre + k) (pre ++ r)%string = String.get k r.
Proof.
  rewrite Nat.add_comm. symmetry. apply append_correct2.
Qed.

Lemma substring_get (s x : string) (i k : nat) :
  substring i (String.length x) s = x ->
  (k < String.length x)%nat ->
  String.get (i + k) s = String.get k x.
Proof.
  intros H Hk.
  pose proof (substring_correct1 s i (String.length x) k Hk) as E.
  rewrite H in E. rewrite E. f_equal. lia.
Qed.

Lemma prefix_split (x r : string) :
  (forall k, (k < String.length x)%nat -> String.get k r = String.get k x) ->
  exists r' : string, r = (x ++ r')%string.
Proof.
  revert r. induction x as [| a x IH]; intros r H.
  - exists r. reflexivity.
  - destruct r as [| b r].
    + specialize (H 0%nat). cbn in H. discriminate H. lia.
    + assert (b = a).
      { specialize (H 0%nat). cbn in H.
        assert (Some b = Some a) by (apply H; lia). congruence. }
      subst b.
      destruct (IH r) as [r' ->].
      { intros k Hk. apply (H (S k)). cbn. lia. }
      exists r'. reflexivity.
Qed.

Lemma find_all_ch_from_spec (s : string) (c : ascii) (i n : nat) :
  In n (find_all_ch_from i s c) <->
  exists k : nat, n = (i + k)%nat /\ String.get k s = Some c.
Proof.
  revert i. induction s as [| a s IH]; intros i; cbn [find_all_ch_from].
  - split; [intros [] | intros (k & _ & H); destruct k; discriminate H].
  - assert (Hrest : In n (find_all_ch_from (S i) s c) <->
              exists k, n = (i + S k)%nat /\ String.get k s = Some c).
    { rewrite IH. split; intros (k & -> & H); exists k; split; auto; lia. }
    destruct (Ascii.eqb_spec a c) as [-> | Hne]; cbn [In]; rewrite ?Hrest.
    + split.
      * intros [<- | (k & -> & H)].
        -- exists 0%nat. split; [lia | reflexivity].
        -- exists (S k). auto.
      * intros ([| k] & -> & H); [left; lia | right; eauto].
    + split.
      * intros (k & -> & H). exists (S k). auto.
      * intros ([| k] & -> & H); [cbn in H; congruence | eauto].
Qed.

Lemma find_all_ch_spec (s : string) (c : ascii) (n : nat) :
  In n (find_all_ch s c) <-> String.get n s = Some c.
Proof.
  unfold find_all_ch. rewrite find_all_ch_from_spec. split.
  - intros (k & -> & H). exact H.
  - intros H. exists n. auto.
Qed.

Lemma str_length (token : TemplateToken.t) :
  String.length (TemplateToken.str token) =
  (String.length (TemplateToken.value token) + 2)%nat.
Proof.
  unfold TemplateToken.str.
  change (S (String.length (TemplateToken.value token ++ "}")%string) =
          (String.length (TemplateToken.value token) + 2)%nat).
  rewrite string_length_app. cbn. lia.
Qed.

(** What the inner loop finds: a token whose field stands at the open
    brace, and the index of the close brace of that field. *)
Lemma match_allowed_spec (s : string) (i e : nat)
    (allowed : list TemplateToken.t) :
  match_allowed s i allowed = Some e ->
  exists token : TemplateToken.t,
    In token allowed /\
    substring i (String.length (TemplateToken.str token)) s =
      TemplateToken.str token /\
    e = (i + String.length (TemplateToken.value token) + 1)%nat.
Proof.
  induction allowed as [| a allowed IH]; cbn [match_allowed]; [discriminate |].
  destruct (String.eqb_spec
              (substring i
                 (i + String.length (TemplateToken.value a) + 1 + 1 - i) s)
              ("{" ++ TemplateToken.value a ++ "}")%string) as [Heq | Hne].
  - intros [= <-]. exists a. split; [now left |]. split; [| reflexivity].
    rewrite str_length.
    replace (String.length (TemplateToken.value a) + 2)%nat
      with (i + String.length (TemplateToken.value a) + 1 + 1 - i)%nat
      by lia.
    exact Heq.
  - intros H. destruct (IH H) as (token & Hin & Hsub & He).
    exists token. split; [now right | auto].
Qed.

Lemma match_allowed_complete (s : string) (i : nat)
    (allowed : list TemplateToken.t) (token : TemplateToken.t) :
  In token allowed ->
  substring i (String.length (TemplateToken.str token)) s =
    TemplateToken.str token ->
  is_Some (match_allowed s i allowed).
Proof.
  intros Hin Hsub.
  induction allowed as [| a allowed IH]; [destruct Hin |].
  cbn [match_allowed].
  destruct (String.eqb_spec
              (substring i
                 (i + String.length (TemplateToken.value a) + 1 + 1 - i) s)
              ("{" ++ TemplateToken.value a ++ "}")%string) as [Heq | Hne];
    [eauto |].
  destruct Hin as [-> | Hin]; [| now apply IH].
  exfalso. apply Hne.
  rewrite str_length in Hsub.
  replace (i + String.length (TemplateToken.value token) + 1 + 1 - i)%nat
    with (String.length (TemplateToken.value token) + 2)%nat by lia.
  exact Hsub.
Qed.

Lemma scan_open_braces_spec (s : string) (opens : list nat)
    (allowed : list TemplateToken.t) (acc closes : gset nat) :
  scan_open_braces s opens allowed acc = Some closes ->
  (forall i, In i opens -> is_Some (match_allowed s i allowed)) /\
  (forall e, e ∈ closes <->
     e ∈ acc \/ exists i, In i opens /\ match_allowed s i allowed = Some e).
Proof.
  revert acc. induction opens as [| o opens IH]; intros acc;
    cbn [scan_open_braces].
  - intros [= <-]. split; [intros i [] |].
    intros e. split; [auto | intros [H | (i & [] & _)]; exact H].
  - destruct (match_allowed s o allowed) as [eo |] eqn:Ho; [| discriminate].
    intros H. destruct (IH _ H) as [Hall Hset]. split.
    + intros i [<- | Hi]; [rewrite Ho; eauto | now apply Hall].
    + intros e. rewrite Hset, elem_of_union, elem_of_singleton. split.
      * intros [[-> | He] | (i & Hi & Hm)]; [right | left | right].
        -- exists o. split; [now left | exact Ho].
        -- exact He.
        -- exists i. split; [now right | exact Hm].
      * intros [He | (i & [<- | Hi] & Hm)].
        -- left. now right.
        -- left. left. congruence.
        -- right. eauto.
Qed.

Lemma all_chars_get (test : ascii -> bool) (s : string) (k : nat) (c : ascii) :
  all_chars test s = true -> String.get k s = Some c -> test c = true.
Proof.
  revert k. induction s as [| a s IH]; intros k; [discriminate 2 |].
  cbn [all_chars]. intros [Ha Hs]%andb_prop.
  destruct k as [| k]; cbn [String.get]; [congruence | eauto].
Qed.

Lemma str_open (token : TemplateToken.t) :
  String.get 0 (TemplateToken.str token) = Some "{"%char.
Proof. reflexivity. Qed.

Lemma str_close (token : TemplateToken.t) :
  String.get (String.length (TemplateToken.value token) + 1)
    (TemplateToken.str token) = Some "}"%char.
Proof. destruct token; reflexivity. Qed.

Lemma str_inner_not_open (token : TemplateToken.t) (k : nat) :
  String.get (S k) (TemplateToken.str token) <> Some "{"%char.
Proof.
  unfold TemplateToken.str.
  change (String.get k (TemplateToken.value token ++ "}")%string
          <> Some "{"%char).
  intros H.
  assert (Hall : all_chars (fun c => negb (Ascii.eqb c "{"))
                   (TemplateToken.value token ++ "}")%string = true)
    by (destruct token; reflexivity).
  pose proof (all_chars_get _ _ _ _ Hall H) as E. discriminate E.
Qed.

Lemma str_not_close_before (token : TemplateToken.t) (k : nat) :
  (k < String.length (TemplateToken.value token) + 1)%nat ->
  String.get k (TemplateToken.str token) <> Some "}"%char.
Proof.
  intros Hk H.
  assert (E : TemplateToken.str token =
              (("{" ++ TemplateToken.value token) ++ "}")%string)
    by reflexivity.
  rewrite E, <- append_correct1 in H.
  - assert (Hall : all_chars (fun c => negb (Ascii.eqb c "}"))
                     ("{" ++ TemplateToken.value token)%string = true)
      by (destruct token; reflexivity).
    pose proof (all_chars_get _ _ _ _ Hall H) as E'. discriminate E'.
  - change (k < S (String.length (TemplateToken.value token)))%nat. lia.
Qed.

(** Two fields that stand at one index have names of one length: the
    field ends at the first close brace. *)
Lemma field_length_unique (s : string) (i : nat) (t1 t2 : TemplateToken.t) :
  substring i (String.length (TemplateToken.str t1)) s = TemplateToken.str t1 ->
  substring i (String.length (TemplateToken.str t2)) s = TemplateToken.str t2 ->
  String.length (TemplateToken.value t1) =
  String.length (TemplateToken.value t2).
Proof.
  intros H1 H2.
  assert (Hlt : forall a b : TemplateToken.t,
             substring i (String.length (TemplateToken.str a)) s =
               TemplateToken.str a ->
             substring i (String.length (TemplateToken.str b)) s =
               TemplateToken.str b ->
             ~ (String.length (TemplateToken.value a) <
                String.length (TemplateToken.value b))%nat).
  { intros a b Ha Hb Hlt.
    pose proof (substring_get s _ i
                  (String.length (TemplateToken.value a) + 1) Ha) as Ea.
    pose proof (substring_get s _ i
                  (String.length (TemplateToken.value a) + 1) Hb) as Eb.
    rewrite str_length in Ea, Eb.
    assert (E : String.get
                  (i + (String.length (TemplateToken.value a) + 1)) s =
                Some "}"%char).
    { rewrite Ea by lia. apply str_close. }
    rewrite Eb in E by lia.
    apply (str_not_close_before b _) in E; [exact E | lia]. }
  pose proof (Hlt t1 t2 H1 H2). pose proof (Hlt t2 t1 H2 H1). lia.
Qed.

Lemma validate_braces (s : string) (allowed : list TemplateToken.t) :
  _validate_format_string s allowed = true <->
  opens_matched s allowed /\ closes_matched s allowed.
Proof.
  unfold _validate_format_string. split.
  - destruct (scan_open_braces _ _ _ _) as [closes |] eqn:Hscan;
      [| discriminate].
    apply scan_open_braces_spec in Hscan as [Hopen Hset].
    intros Hall. rewrite forallb_forall in Hall. split.
    + intros i Hi. apply find_all_ch_spec in Hi.
      destruct (Hopen i Hi) as [e He].
      apply match_allowed_spec in He as (token & Hin & Hsub & _). eauto.
    + intros j Hj. apply find_all_ch_spec in Hj.
      apply Hall, bool_decide_eq_true, Hset in Hj.
      destruct Hj as [Hj | (i & Hi & Hm)]; [now apply elem_of_empty in Hj |].
      apply match_allowed_spec in Hm as (token & Hin & Hsub & ->). eauto.
  - intros [Hopen Hclose].
    assert (Hsome : forall i, In i (find_all_ch s "{") ->
                      is_Some (match_allowed s i allowed)).
    { intros i Hi. apply find_all_ch_spec in Hi.
      destruct (Hopen i Hi) as (token & Hin & Hsub).
      eapply match_allowed_complete; eauto. }
    assert (Htotal : forall opens acc,
               (forall i, In i opens -> is_Some (match_allowed s i allowed)) ->
               is_Some (scan_open_braces s opens allowed acc)).
    { induction opens as [| o opens IH]; intros acc H;
        cbn [scan_open_braces]; [eauto |].
      destruct (H o) as [e ->]; [now left |].
      apply IH. intros i Hi. apply H. now right. }
    destruct (Htotal (find_all_ch s "{") ∅ Hsome) as [closes Hscan].
    rewrite Hscan.
    apply scan_open_braces_spec in Hscan as [_ Hset].
    apply forallb_forall. intros j Hj. apply find_all_ch_spec in Hj.
    apply bool_decide_eq_true, Hset. right.
    destruct (Hclose j Hj) as (i & token & Hin & Hsub & ->).
    exists i. split.
    + apply find_all_ch_spec.
      pose proof (substring_get s _ i 0 Hsub) as E.
      rewrite Nat.add_0_r, str_open in E. apply E.
      rewrite str_length. lia.
    + destruct (match_allowed_complete s i allowed token Hin Hsub)
        as [e He].
      rewrite He. f_equal.
      apply match_allowed_spec in He as (token' & _ & Hsub' & ->).
      now rewrite (field_length_unique s i token' token Hsub' Hsub).
Qed.

Lemma is_brace_false (c : ascii) :
  c <> "{"%char -> c <> "}"%char -> is_brace c = false.
Proof.
  intros H1 H2. unfold is_brace.
  apply Ascii.eqb_neq in H1, H2. now rewrite H1, H2.
Qed.

(** From the braces facts to the pieces: [r] is what is left to read of
    [s] after [pre], and no field that starts in [pre] reaches [r]. *)
Lemma pieces_of_suffix (s : string) (allowed : list TemplateToken.t) :
  opens_matched s allowed -> closes_matched s allowed ->
  forall (n : nat) (r pre : string),
    (String.length r <= n)%nat ->
    s = (pre ++ r)%string ->
    (forall (i : nat) (token : TemplateToken.t),
       (i < String.length pre)%nat ->
       substring i (String.length (TemplateToken.str token)) s =
         TemplateToken.str token ->
       (i + String.length (TemplateToken.value token) + 1
        < String.length pre)%nat) ->
    exists pieces : list piece,
      r = unparse pieces /\ Forall (piece_ok allowed) pieces.
Proof.
  intros Hopen Hclose.
  induction n as [| n IH]; intros r pre Hn Hs Hinv.
  { destruct r; [| cbn in Hn; lia]. exists []. split; [reflexivity | constructor]. }
  destruct r as [| c r'].
  { exists []. split; [reflexivity | constructor]. }
  assert (Hget : String.get (String.length pre) s = Some c).
  { rewrite Hs, <- (Nat.add_0_r (String.length pre)), get_app_r.
    reflexivity. }
  destruct (ascii_dec c "{") as [-> | Hno].
  - destruct (Hopen _ Hget) as (token & Hin & Hsub).
    destruct (prefix_split (TemplateToken.str token) (String "{" r'))
      as [r'' Hr].
    { intros k Hk.
      rewrite <- (substring_get s _ (String.length pre) k Hsub Hk).
      now rewrite Hs, get_app_r. }
    assert (Hlen : String.length (String "{" r') =
                   (String.length (TemplateToken.value token) + 2
                    + String.length r'')%nat).
    { now rewrite Hr, string_length_app, str_length. }
    cbn [String.length] in Hn, Hlen.
    destruct (IH r'' (pre ++ TemplateToken.str token)%string)
      as (pieces & -> & Hok).
    + lia.
    + now rewrite string_app_assoc, <- Hr.
    + intros i ti Hi Hsubi.
      rewrite string_length_app, str_length in Hi |- *.
      destruct (lt_dec i (String.length pre)) as [Hlt | Hge].
      { specialize (Hinv i ti Hlt Hsubi). lia. }
      assert (Hi0 : String.get i s = Some "{"%char).
      { pose proof (substring_get s _ i 0 Hsubi) as E.
        rewrite Nat.add_0_r, str_open in E. apply E.
        rewrite str_length. lia. }
      pose proof (substring_get s _ (String.length pre)
                    (i - String.length pre) Hsub) as E.
      rewrite str_length in E.
      replace (String.length pre + (i - String.length pre))%nat with i
        in E by lia.
      rewrite Hi0 in E.
      destruct (i - String.length pre)%nat as [| k] eqn:Hk.
      * assert (i = String.length pre) by lia. subst i.
        rewrite (field_length_unique s _ ti token Hsubi Hsub). lia.
      * exfalso. apply (str_inner_not_open token k).
        symmetry. apply E. lia.
    + exists (Field token :: pieces). split; [exact Hr |].
      constructor; [exact Hin | exact Hok].
  - destruct (ascii_dec c "}") as [-> | Hnc].
    + destruct (Hclose _ Hget) as (i & token & Hin & Hsub & Hj).
      assert (Hi : (i < String.length pre)%nat) by lia.
      specialize (Hinv i token Hi Hsub). lia.
    + cbn [String.length] in Hn.
      destruct (IH r' (pre ++ String c EmptyString)%string)
        as (pieces & -> & Hok).
      * lia.
      * now rewrite string_app_assoc.
      * intros i ti Hi Hsubi.
        rewrite string_length_app in Hi |- *. cbn [String.length] in Hi |- *.
        destruct (lt_dec i (String.length pre)) as [Hlt | Hge].
        { specialize (Hinv i ti Hlt Hsubi). lia. }
        assert (i = String.length pre) by lia. subst i.
        pose proof (substring_get s _ _ 0 Hsubi) as E.
        rewrite Nat.add_0_r, str_open, Hget in E.
        exfalso. apply Hno.
        assert (Some c = Some "{"%char) by (apply E; rewrite str_length; lia).
        congruence.
      * exists (Text c :: pieces). split; [reflexivity |].
        constructor; [now apply is_brace_false | exact Hok].
Qed.

Lemma substring_prefix (x s : string) :
  substring 0 (String.length x) (x ++ s)%string = x.
Proof.
  induction x as [| a x IH]; [now destruct s |].
  change (String a (substring 0 (String.length x) (x ++ s)%string)
          = String a x).
  now rewrite IH.
Qed.

Lemma substring_app_r (x s : string) (i m : nat) :
  substring (String.length x + i) m (x ++ s)%string = substring i m s.
Proof. induction x as [| a x IH]; [reflexivity | exact IH]. Qed.

Lemma get_app_l (x s : string) (k : nat) :
  (k < String.length x)%nat ->
  String.get k (x ++ s)%string = String.get k x.
Proof. intros H. symmetry. now apply append_correct1. Qed.

(** From the pieces to the braces facts. *)
Lemma pieces_braces (allowed : list TemplateToken.t) (pieces : list piece) :
  Forall (piece_ok allowed) pieces ->
  opens_matched (unparse pieces) allowed /\
  closes_matched (unparse pieces) allowed.
Proof.
  induction 1 as [| p pieces Hp _ [IHo IHc]].
  { split; intros i Hi; destruct i; discriminate Hi. }
  destruct p as [c | token]; cbn [unparse piece_ok] in *.
  - unfold is_brace in Hp. apply orb_false_elim in Hp as [Ho Hc].
    apply Ascii.eqb_neq in Ho, Hc. split.
    + intros [| i] Hi; [cbn in Hi; congruence |].
      destruct (IHo i Hi) as (token & Hin & Hsub). eauto.
    + intros [| j] Hj; [cbn in Hj; congruence |].
      destruct (IHc j Hj) as (i & token & Hin & Hsub & ->).
      exists (S i), token. auto.
  - set (L := String.length (TemplateToken.value token)).
    assert (Hlen : String.length (TemplateToken.str token) = (L + 2)%nat)
      by apply str_length.
    split.
    + intros i Hi.
      destruct (lt_dec i (L + 2)) as [Hlt | Hge].
      * rewrite get_app_l in Hi by lia.
        destruct i as [| k]; [| now apply str_inner_not_open in Hi].
        exists token. split; [exact Hp | apply substring_prefix].
      * replace i with (String.length (TemplateToken.str token)
                        + (i - (L + 2)))%nat in Hi |- * by lia.
        rewrite get_app_r in Hi.
        destruct (IHo _ Hi) as (token' & Hin & Hsub).
        exists token'. split; [exact Hin |].
        now rewrite substring_app_r.
    + intros j Hj.
      destruct (lt_dec j (L + 2)) as [Hlt | Hge].
      * rewrite get_app_l in Hj by lia.
        exists 0%nat, token. split; [exact Hp |].
        split; [apply substring_prefix |].
        destruct (lt_dec j (L + 1)) as [Hlt' | Hge'];
          [now apply str_not_close_before in Hj | fold L; lia].
      * replace j with (String.length (TemplateToken.str token)
                        + (j - (L + 2)))%nat in Hj by lia.
        rewrite get_app_r in Hj.
        destruct (IHc _ Hj) as (i & token' & Hin & Hsub & Hj').
        exists (String.length (TemplateToken.str token) + i)%nat, token'.
        split; [exact Hin |]. split; [now rewrite substring_app_r | lia].
Qed.

(** X1. [_validate_format_string] returns (does not raise) exactly for
    the format strings that are sequences of characters other than
    braces and of fields [{TOKEN}] whose token is among the allowed
    ones. *)
Theorem validate_format_string_exact (format_str : string)
    (allowed_args : list TemplateToken.t) :
  _validate_format_string format_str allowed_args = true <->
  exists pieces : list piece,
    format_str = unparse pieces /\ Forall (piece_ok allowed_args) pieces.
Proof.
  rewrite validate_braces. split.
  - intros [Hopen Hclose].
    apply (pieces_of_suffix format_str allowed_args Hopen Hclose
             (String.length format_str) format_str EmptyString);
      [lia | reflexivity | cbn; lia].
  - intros (pieces & -> & Hok). now apply pieces_braces.
Qed.

Lemma string_app_nil_r (a : string) : (a ++ EmptyString)%string = a.
Proof.
  induction a as [| x a IH]; [reflexivity |].
  change (String x (a ++ EmptyString)%string = String x a). now rewrite IH.
Qed.

Lemma name_char_not_brace (c : ascii) :
  in_range 65 90 c || (code c =? 95) = true -> is_brace c = false.
Proof.
  intros H. apply is_brace_false; intros ->; discriminate H.
Qed.

(** Reading the rest of a field name up to its close brace. *)
Lemma format_from_name (name acc rest : string)
    (format_args : gmap string string) :
  all_chars (fun c => in_range 65 90 c || (code c =? 95)) name = true ->
  format_from (name ++ String "}" rest)%string (Some acc) format_args =
  if is_field_name (acc ++ name)%string
  then match format_args !! (acc ++ name)%string with
       | Some arg => prepend arg (format_from rest None format_args)
       | None => KeyError (acc ++ name)%string
       end
  else Unmodelled.
Proof.
  revert acc. induction name as [| c name IH]; intros acc Hall.
  - rewrite string_app_nil_r. reflexivity.
  - cbn [all_chars] in Hall. apply andb_prop in Hall as [Hc Hall].
    apply name_char_not_brace, orb_false_elim in Hc as [Ho Hc].
    change (String c name ++ String "}" rest)%string
      with (String c (name ++ String "}" rest)).
    cbn [format_from]. rewrite Ho, Hc, (IH _ Hall).
    now rewrite string_app_assoc.
Qed.

Lemma format_from_pieces (pieces : list piece)
    (format_args : gmap string string) :
  Forall (fun p => match p with Text c => is_brace c = false | _ => True end)
         pieces ->
  format_from (unparse pieces) None format_args =
  substitute format_args pieces.
Proof.
  induction 1 as [| p pieces Hp _ IH]; [reflexivity |].
  destruct p as [c | token]; cbn [unparse substitute].
  - apply orb_false_elim in Hp as [Ho Hc].
    cbn [format_from]. now rewrite Ho, Hc, IH.
  - unfold TemplateToken.str.
    change (("{" ++ TemplateToken.value token ++ "}") ++ unparse pieces)%string
      with (String "{" ((TemplateToken.value token ++ "}")
                         ++ unparse pieces)%string).
    rewrite string_app_assoc.
    change ("}" ++ unparse pieces)%string with (String "}" (unparse pieces)).
    cbn [format_from]. change (Ascii.eqb "{" "{") with true. cbv iota.
    rewrite format_from_name by (destruct token; reflexivity).
    change (EmptyString ++ TemplateToken.value token)%string
      with (TemplateToken.value token).
    replace (is_field_name (TemplateToken.value token)) with true
      by (destruct token; reflexivity).
    now rewrite IH.
Qed.

Lemma substitute_modelled (format_args : gmap string string)
    (pieces : list piece) :
  substitute format_args pieces <> Unmodelled.
Proof.
  induction pieces as [| [c | token] pieces IH]; cbn [substitute];
    [discriminate | |].
  - now destruct (substitute format_args pieces).
  - destruct (format_args !! _); [| discriminate].
    now destruct (substitute format_args pieces).
Qed.

Lemma substitute_covered (format_args : gmap string string)
    (allowed : list TemplateToken.t) (pieces : list piece) :
  Forall (piece_ok allowed) pieces ->
  (forall token, In token allowed ->
                 is_Some (format_args !! TemplateToken.value token)) ->
  exists text : string, substitute format_args pieces = Formatted text.
Proof.
  intros Hok Hargs.
  induction Hok as [| [c | token] pieces Hp _ [text IH]];
    cbn [substitute]; [eauto | |].
  - rewrite IH. cbn. eauto.
  - destruct (Hargs token Hp) as [arg ->]. rewrite IH. cbn. eauto.
Qed.

(** A formatter that was constructed holds the template and the tokens
    it was given, and the template is a sequence of pieces. *)
Lemma init_pieces (template : string) (allowed : list TemplateToken.t)
    (self : t) :
  init template allowed = Some self ->
  TemplateMessageFormatter.template self = template /\
  allowed_tokens self = allowed /\
  exists pieces : list piece,
    template = unparse pieces /\ Forall (piece_ok allowed) pieces.
Proof.
  unfold init.
  destruct (_validate_format_string template allowed) eqn:Hv;
    [| discriminate].
  intros [= <-]. repeat split.
  apply validate_braces in Hv as [Hopen Hclose].
  apply (pieces_of_suffix template allowed Hopen Hclose
           (String.length template) template EmptyString);
    [lia | reflexivity | cbn; lia].
Qed.

Lemma format_pieces (self : t) (allowed : list TemplateToken.t)
    (pieces : list piece) (format_args : gmap string string) :
  TemplateMessageFormatter.template self = unparse pieces ->
  Forall (piece_ok allowed) pieces ->
  format self format_args = substitute format_args pieces.
Proof.
  intros Ht Hok. unfold format. rewrite Ht.
  apply format_from_pieces.
  eapply Forall_impl; [exact Hok |]. now intros [c | token].
Qed.

(** X2. A formatter that was constructed (its template passed
    validation) formats without meeting a brace it cannot read: the
    result is the template with each field replaced by the argument of
    its token, or [KeyError] for the first field whose token has no
    argument; when every allowed token has an argument the call returns
    a text. *)
Theorem validated_template_formats (template : string)
    (allowed_tokens : list TemplateToken.t) (self : t)
    (format_args : gmap string string) :
  init template allowed_tokens = Some self ->
  exists pieces : list piece,
    template = unparse pieces /\
    Forall (piece_ok allowed_tokens) pieces /\
    format self format_args = substitute format_args pieces /\
    format self format_args <> Unmodelled /\
    ((forall token, In token allowed_tokens ->
        is_Some (format_args !! TemplateToken.value token)) ->
     exists text : string, format self format_args = Formatted text).
Proof.
  intros Hinit.
  apply init_pieces in Hinit as (Ht & _ & pieces & -> & Hok).
  exists pieces. rewrite (format_pieces self _ _ _ Ht Hok).
  repeat split; [exact Hok | apply substitute_modelled |].
  now apply substitute_covered.
Qed.

(** The template "{AI_NAME}: hi" with the one token AI_NAME. *)
Lemma validated_template_formats_witness :
  exists text : string,
    format {| template := "{AI_NAME}: hi";
              allowed_tokens := [TemplateToken.AI_NAME] |}
           {[ "AI_NAME" := "Rosie" ]} = Formatted text.
Proof.
  destruct (validated_template_formats "{AI_NAME}: hi"
              [TemplateToken.AI_NAME]
              {| template := "{AI_NAME}: hi";
                 allowed_tokens := [TemplateToken.AI_NAME] |}
              {[ "AI_NAME" := "Rosie" ]} eq_refl)
    as (pieces & _ & _ & _ & _ & Hcov).
  apply Hcov. intros token [<- | []]. now exists "Rosie".
Defined.

Example format_examples :
  format {| template := "{AI_NAME}: hi";
            allowed_tokens := [TemplateToken.AI_NAME] |}
         {[ "AI_NAME" := "Rosie" ]} = Formatted "Rosie: hi" /\
  format {| template := "{AI_NAME}: hi";
            allowed_tokens := [TemplateToken.AI_NAME] |}
         {[ "NAME" := "bob" ]} = KeyError "AI_NAME" /\
  _validate_format_string "{AI_NAME} and {NAME}"
    [TemplateToken.AI_NAME] = false /\
  _validate_format_string "{{AI_NAME}}" [TemplateToken.AI_NAME] = false /\
  _validate_format_string "a } b" [TemplateToken.AI_NAME] = false /\
  _validate_format_string "{AI_NAME" [TemplateToken.AI_NAME] = false.
Proof. repeat split. Qed.

(** *** TemplateStore *)

Lemma add_templates_built (settings : gmap string (option string))
    (entries : list (Templates.t * list TemplateToken.t))
    (acc templates : gmap Templates.t t) :
  TemplateStore.add_templates settings entries acc
    = TemplateStore.Built templates ->
  Forall (TemplateStore.entry_ok settings) entries.
Proof.
  revert acc. induction entries as [| [template tokens] entries IH];
    intros acc; cbn [TemplateStore.add_templates]; [constructor |].
  destruct (settings !! Templates.value template) as [[fmt |] |] eqn:Hs;
    try discriminate.
  unfold init.
  destruct (_validate_format_string fmt tokens) eqn:Hv; [| discriminate].
  intros H. constructor; [| eapply IH; exact H].
  exists fmt. auto.
Qed.

Lemma add_templates_total (settings : gmap string (option string))
    (entries : list (Templates.t * list TemplateToken.t))
    (acc : gmap Templates.t t) :
  Forall (TemplateStore.entry_ok settings) entries ->
  exists templates : gmap Templates.t t,
    TemplateStore.add_templates settings entries acc
      = TemplateStore.Built templates.
Proof.
  intros H. revert acc.
  induction H as [| [template tokens] entries (fmt & Hs & Hv) _ IH];
    intros acc; cbn [TemplateStore.add_templates]; [eauto |].
  cbn [fst snd] in Hs, Hv. unfold init. rewrite Hs, Hv. apply IH.
Qed.

Lemma add_templates_lookup (settings : gmap string (option string))
    (entries : list (Templates.t * list TemplateToken.t))
    (acc templates : gmap Templates.t t) :
  TemplateStore.add_templates settings entries acc
    = TemplateStore.Built templates ->
  NoDup (map fst entries) ->
  (forall template tokens,
     In (template, tokens) entries ->
     exists (template_fmt : string) (formatter : t),
       settings !! Templates.value template = Some (Some template_fmt) /\
       init template_fmt tokens = Some formatter /\
       templates !! template = Some formatter) /\
  (forall template,
     ~ In template (map fst entries) ->
     templates !! template = acc !! template).
Proof.
  revert acc. induction entries as [| [template tokens] entries IH];
    intros acc; cbn [TemplateStore.add_templates map fst].
  - intros [= <-] _. split; [intros ? ? [] | auto].
  - destruct (settings !! Templates.value template) as [[fmt |] |] eqn:Hs;
      try discriminate.
    destruct (init fmt tokens) as [formatter |] eqn:Hf; [| discriminate].
    intros H Hnodup. apply NoDup_cons in Hnodup as [Hfresh Hnodup].
    destruct (IH _ H Hnodup) as [Hin Hout]. split.
    + intros template' tokens' [[= <- <-] | Hin'].
      * exists fmt, formatter. repeat split; auto.
        rewrite Hout; [apply lookup_insert_eq |].
        now rewrite <- list_elem_of_In.
      * now apply Hin.
    + intros template' Hnot.
      assert (Hne : template <> template')
        by (intros ->; apply Hnot; now left).
      assert (Hrest : ~ In template' (map fst entries))
        by (intros Hin'; apply Hnot; now right).
      rewrite (Hout _ Hrest). now apply lookup_insert_ne.
Qed.

Lemma TEMPLATES_keys_distinct : NoDup (map fst TemplateStore.TEMPLATES).
Proof.
  apply (bool_decide_unpack (NoDup (map fst TemplateStore.TEMPLATES))).
  vm_compute. exact I.
Qed.

Lemma TEMPLATES_complete (template : Templates.t) :
  exists tokens : list TemplateToken.t,
    In (template, tokens) TemplateStore.TEMPLATES.
Proof.
  destruct template; eexists; unfold TemplateStore.TEMPLATES;
    cbn [In]; repeat (first [left; reflexivity | right]).
Qed.

(** X3. [TemplateStore.__init__] builds the store exactly when, for
    every entry of [TEMPLATES], the settings hold a format string (not
    [None]) under the template's name and that string passes validation
    against the entry's tokens; otherwise it raises. *)
Theorem template_store_init_exact (settings : gmap string (option string)) :
  (exists templates : gmap Templates.t t,
     TemplateStore.init settings = TemplateStore.Built templates) <->
  Forall (TemplateStore.entry_ok settings) TemplateStore.TEMPLATES.
Proof.
  unfold TemplateStore.init. split.
  - intros [templates H]. eapply add_templates_built, H.
  - apply add_templates_total.
Qed.

(** X4. In a store that was built, every member of [Templates] has a
    formatter: it holds the format string of the settings and the tokens
    of [TEMPLATES]; [format] never fails on the lookup nor on a brace,
    and it returns a text when every token of the template has an
    argument. *)
Theorem template_store_formats (settings : gmap string (option string))
    (templates : gmap Templates.t t) (template_name : Templates.t)
    (format_args : gmap string string) :
  TemplateStore.init settings = TemplateStore.Built templates ->
  exists (formatter : t) (tokens : list TemplateToken.t)
         (result : format_result),
    In (template_name, tokens) TemplateStore.TEMPLATES /\
    templates !! template_name = Some formatter /\
    settings !! Templates.value template_name =
      Some (Some (template formatter)) /\
    allowed_tokens formatter = tokens /\
    TemplateStore.format templates template_name format_args = Some result /\
    result <> Unmodelled /\
    ((forall token, In token tokens ->
        is_Some (format_args !! TemplateToken.value token)) ->
     exists text : string, result = Formatted text).
Proof.
  intros Hinit.
  destruct (add_templates_lookup _ _ _ _ Hinit TEMPLATES_keys_distinct)
    as [Hin _].
  destruct (TEMPLATES_complete template_name) as [tokens Htokens].
  destruct (Hin _ _ Htokens) as (fmt & formatter & Hs & Hf & Hlookup).
  apply init_pieces in Hf as (Ht & Ha & pieces & Hp & Hok).
  exists formatter, tokens, (format formatter format_args).
  unfold TemplateStore.format. rewrite Hlookup, Ht.
  assert (Hfmt : format formatter format_args =
                 substitute format_args pieces).
  { eapply format_pieces; [congruence | exact Hok]. }
  rewrite Hfmt.
  repeat split; auto using substitute_modelled.
  now apply substitute_covered.
Qed.

(** Every template set to the text "text", the bot name to "{NAME}". *)
Lemma template_store_formats_witness :
  exists (templates : gmap Templates.t t) (text : string),
    TemplateStore.init sample_template_settings
      = TemplateStore.Built templates /\
    TemplateStore.format templates Templates.BOT_NAME
      {[ "NAME" := "Rosie" ]} = Some (Formatted text).
Proof.
  destruct (add_templates_total sample_template_settings
              TemplateStore.TEMPLATES ∅) as [templates Hinit].
  { repeat constructor; eexists; split; vm_compute; reflexivity. }
  destruct (template_store_formats sample_template_settings templates
              Templates.BOT_NAME {[ "NAME" := "Rosie" ]} Hinit)
    as (formatter & tokens & result & Hin & _ & _ & _ & Hfmt & _ & Hcov).
  destruct Hcov as [text ->].
  - intros token Htoken.
    assert (tokens = [TemplateToken.NAME]) as ->.
    { unfold TemplateStore.TEMPLATES in Hin. cbn [In] in Hin.
      repeat (destruct Hin as [Hin | Hin]; [try discriminate Hin |]);
        [now injection Hin | destruct Hin]. }
    destruct Htoken as [<- | []]. now exists "Rosie".
  - exists templates, text. auto.
Defined.

End TemplateFacts.

(** ** RepetitionTracker: channels and the meaning of the counter *)

Section TrackerMore.
Import RepetitionTracker.

Lemma log_messages_cons (self : t) (ch : Z) (m : Message)
    (ms : list Message) :
  log_messages self ch (m :: ms) = log_messages (log_message self ch m) ch ms.
Proof. reflexivity. Qed.

(** [log_message] reads the tracker through the threshold and the entry
    of its channel only. *)
Lemma log_message_agree (t1 t2 : t) (ch : Z) (m : Message) :
  repetition_threshold t1 = repetition_threshold t2 ->
  repetition_count t1 !! ch = repetition_count t2 !! ch ->
  repetition_count (log_message t1 ch m) !! ch =
  repetition_count (log_message t2 ch m) !! ch.
Proof.
  intros Hthr Hentry. rewrite !log_message_entry.
  unfold should_throttle, next_count, last_message, count,
    get_throttle_message_id.
  now rewrite Hthr, Hentry.
Qed.

Lemma log_events_agree (events : list (Z * Message)) (ch : Z) (t1 t2 : t) :
  repetition_threshold t1 = repetition_threshold t2 ->
  repetition_count t1 !! ch = repetition_count t2 !! ch ->
  repetition_count (log_events t1 events) !! ch =
  repetition_count (log_messages t2 ch (messages_of ch events)) !! ch.
Proof.
  revert t1 t2.
  induction events as [| [c m] events IH]; intros t1 t2 Hthr Hentry.
  - exact Hentry.
  - change (log_events t1 ((c, m) :: events))
      with (log_events (log_message t1 c m) events).
    unfold messages_of. cbn [List.filter fst].
    destruct (Z.eqb_spec c ch) as [-> | Hne].
    + cbn [map snd]. rewrite log_messages_cons. apply IH.
      * now rewrite !log_message_threshold.
      * now apply log_message_agree.
    + apply IH.
      * now rewrite log_message_threshold.
      * rewrite log_message_other by congruence. exact Hentry.
Qed.

(** X5. The entry the tracker holds for a channel (stored text,
    boundary, counter) after any sequence of logged messages is the one
    obtained by logging that channel's messages alone: messages logged
    to other channels have no effect on it. *)
Theorem log_events_channel_isolation (self : t) (ch : Z)
    (events : list (Z * Message)) :
  repetition_count (log_events self events) !! ch =
    repetition_count (log_messages self ch (messages_of ch events)) !! ch /\
  get_throttle_message_id (log_events self events) ch =
    get_throttle_message_id
      (log_messages self ch (messages_of ch events)) ch.
Proof.
  assert (H := log_events_agree events ch self self eq_refl eq_refl).
  split; [exact H |].
  unfold get_throttle_message_id. now rewrite H.
Qed.

(** The counter computed for [m] after the messages [ms] in a channel
    that had no entry. *)
Lemma next_count_run (self : t) (ch : Z) (ms : list Message) (m : Message) :
  repetition_count self !! ch = None ->
  next_count (log_messages self ch ms) ch m =
  Z.of_nat (leading_repeats (make_canonical (content m)) (rev ms)) +
  (if (leading_repeats (make_canonical (content m)) (rev ms)
       =? length ms)%nat
      && String.eqb (make_canonical (content m)) EmptyString
   then 1 else 0).
Proof.
  intros Hfresh. revert m.
  induction ms as [| y ms IH] using rev_ind; intros m.
  - cbn. unfold next_count, last_message, count. rewrite Hfresh.
    rewrite String.eqb_sym. now destruct (String.eqb _ _).
  - rewrite log_messages_snoc. unfold next_count at 1.
    rewrite log_message_last, log_message_count, (IH y).
    rewrite rev_app_distr, length_app. cbn [rev app leading_repeats length].
    destruct (String.eqb_spec (make_canonical (content y))
                (make_canonical (content m))) as [-> | Hne].
    + replace (S (leading_repeats (make_canonical (content m)) (rev ms))
               =? length ms + 1)%nat
        with (leading_repeats (make_canonical (content m)) (rev ms)
              =? length ms)%nat.
      * destruct (_ && _); lia.
      * destruct (Nat.eqb_spec
                    (leading_repeats (make_canonical (content m)) (rev ms))
                    (length ms)) as [-> | Hn]; symmetry.
        -- apply Nat.eqb_eq. lia.
        -- apply Nat.eqb_neq. lia.
    + replace (0 =? length ms + 1)%nat with false; [reflexivity |].
      symmetry. apply Nat.eqb_neq. lia.
Qed.

(** X6. In a channel that had no entry, after the messages [ms] and then
    [m], the counter is the number of messages immediately before [m]
    whose canonical text is that of [m] (plus one when all of them have
    it and it is the empty text, which equals the default stored text);
    when that number reaches the threshold, the boundary is the id of
    [m]. *)
Theorem counter_counts_repeats (self : t) (ch : Z) (ms : list Message)
    (m : Message) :
  repetition_count self !! ch = None ->
  let c := make_canonical (content m) in
  let repeats := leading_repeats c (rev ms) in
  let n := Z.of_nat repeats +
           (if (repeats =? length ms)%nat && String.eqb c EmptyString
            then 1 else 0) in
  count (log_messages self ch (ms ++ [m])) ch = n /\
  (repetition_threshold self <= n ->
   get_throttle_message_id (log_messages self ch (ms ++ [m])) ch =
     Some (message_id m)) /\
  (n < repetition_threshold self ->
   get_throttle_message_id (log_messages self ch (ms ++ [m])) ch =
     Some (default 0 (get_throttle_message_id
                        (log_messages self ch ms) ch))).
Proof.
  intros Hfresh c repeats n.
  rewrite log_messages_snoc, log_message_count, log_message_boundary.
  unfold should_throttle. rewrite log_messages_threshold.
  rewrite (next_count_run self ch ms m Hfresh). fold c repeats n.
  split; [reflexivity |]. split; intros H.
  - apply Z.geb_le in H. now rewrite H.
  - destruct (n >=? repetition_threshold self) eqn:E; [| reflexivity].
    apply Z.geb_le in E. lia.
Qed.

(** Threshold 2: "ok." after "hi.", "ok.", "OK." repeats two messages. *)
Lemma counter_counts_repeats_witness :
  count (log_messages (init 2) 1
           ([bot_message 1 "hi."; bot_message 2 "ok."; bot_message 3 "OK."]
            ++ [bot_message 4 "ok."])) 1 = 2.
Proof.
  apply (counter_counts_repeats (init 2) 1
           [bot_message 1 "hi."; bot_message 2 "ok."; bot_message 3 "OK."]
           (bot_message 4 "ok.")).
  reflexivity.
Defined.

Lemma log_events_snoc (self : t) (events : list (Z * Message)) (c : Z)
    (m : Message) :
  log_events self (events ++ [(c, m)]) =
  log_message (log_events self events) c m.
Proof. unfold log_events. now rewrite fold_left_app. Qed.

(** X7. After any sequence of logged messages, the boundary of a channel
    is what it was before, or the placeholder 0 (when there was none), or
    the id of one of the messages logged to that channel. *)
Theorem boundary_is_logged_message (self : t) (ch : Z)
    (events : list (Z * Message)) :
  get_throttle_message_id (log_events self events) ch =
    get_throttle_message_id self ch \/
  get_throttle_message_id (log_events self events) ch =
    Some (default 0 (get_throttle_message_id self ch)) \/
  exists m : Message,
    In (ch, m) events /\
    get_throttle_message_id (log_events self events) ch =
      Some (message_id m).
Proof.
  induction events as [| [c m] events IH] using rev_ind; [now left |].
  rewrite log_events_snoc.
  destruct (Z.eq_dec c ch) as [-> | Hne].
  - rewrite log_message_boundary.
    destruct (should_throttle _ _).
    + right; right. exists m. split; [| reflexivity].
      apply in_or_app. right. now left.
    + destruct IH as [-> | [-> | (m' & Hin & ->)]].
      * right; left. reflexivity.
      * right; left. reflexivity.
      * right; right. exists m'. split; [| reflexivity].
        apply in_or_app. now left.
  - assert (E : get_throttle_message_id
                  (log_message (log_events self events) c m) ch =
                get_throttle_message_id (log_events self events) ch).
    { unfold get_throttle_message_id. now rewrite log_message_other. }
    rewrite E.
    destruct IH as [H | [H | (m' & Hin & H)]]; auto.
    right; right. exists m'. split; [| exact H].
    apply in_or_app. now left.
Qed.

End TrackerMore.

(** ** Canonical text and sanitized messages *)

Section TextMore.

Lemma isspace_lower_char (c : ascii) : isspace (lower_char c) = isspace c.
Proof. destruct c as [[] [] [] [] [] [] [] []]; reflexivity. Qed.

Lemma lower_char_idem (c : ascii) : lower_char (lower_char c) = lower_char c.
Proof. destruct c as [[] [] [] [] [] [] [] []]; reflexivity. Qed.

Lemma lower_idem (s : string) : lower (lower s) = lower s.
Proof.
  induction s as [| c s IH]; cbn [lower]; [reflexivity |].
  now rewrite lower_char_idem, IH.
Qed.

Lemma lstrip_lower (s : string) : lstrip (lower s) = lower (lstrip s).
Proof.
  induction s as [| c s IH]; cbn [lower lstrip]; [reflexivity |].
  rewrite isspace_lower_char. now destruct (isspace c).
Qed.

Lemma rstrip_lower (s : string) : rstrip (lower s) = lower (rstrip s).
Proof.
  induction s as [| c s IH]; cbn [lower rstrip]; [reflexivity |].
  rewrite IH, isspace_lower_char.
  destruct (rstrip s); cbn [lower]; [now destruct (isspace c) | reflexivity].
Qed.

Lemma rstrip_cons (c : ascii) (r : string) :
  rstrip (String c r) =
  match rstrip r with
  | EmptyString => if isspace c then EmptyString else String c EmptyString
  | kept => String c kept
  end.
Proof. reflexivity. Qed.

Lemma rstrip_idem (s : string) : rstrip (rstrip s) = rstrip s.
Proof.
  induction s as [| c s IH]; [reflexivity |]. rewrite rstrip_cons.
  destruct (rstrip s) as [| k kept] eqn:E.
  - destruct (isspace c) eqn:Hc; [reflexivity |].
    rewrite rstrip_cons. cbn [rstrip]. now rewrite Hc.
  - rewrite rstrip_cons. now rewrite IH.
Qed.

Lemma lstrip_head (s : string) :
  lstrip s = EmptyString \/
  exists c r, lstrip s = String c r /\ isspace c = false.
Proof.
  induction s as [| c s IH]; cbn [lstrip]; [now left |].
  destruct (isspace c) eqn:Hc; [exact IH | right; eauto].
Qed.

Lemma rstrip_head (c : ascii) (r : string) :
  isspace c = false -> exists r', rstrip (String c r) = String c r'.
Proof.
  intros Hc. cbn [rstrip]. destruct (rstrip r); rewrite ?Hc; eauto.
Qed.

Lemma strip_idem (s : string) : strip (strip s) = strip s.
Proof.
  unfold strip. destruct (lstrip_head s) as [-> | (c & r & -> & Hc)];
    [reflexivity |].
  destruct (rstrip_head c r Hc) as [r' E].
  rewrite E at 1. cbn [lstrip]. rewrite Hc, <- E. apply rstrip_idem.
Qed.

Lemma strip_lower (s : string) : strip (lower s) = lower (strip s).
Proof. unfold strip. now rewrite lstrip_lower, rstrip_lower. Qed.

(** X8. The canonical text is a fixed point of canonicalization: it has
    no surrounding whitespace and no capital letter, and canonicalizing,
    stripping or lowercasing a text before canonicalizing it changes
    nothing. *)
Theorem make_canonical_idempotent (s : string) :
  RepetitionTracker.make_canonical (RepetitionTracker.make_canonical s) =
    RepetitionTracker.make_canonical s /\
  strip (RepetitionTracker.make_canonical s) =
    RepetitionTracker.make_canonical s /\
  lower (RepetitionTracker.make_canonical s) =
    RepetitionTracker.make_canonical s /\
  RepetitionTracker.make_canonical (strip s) =
    RepetitionTracker.make_canonical s /\
  RepetitionTracker.make_canonical (lower s) =
    RepetitionTracker.make_canonical s.
Proof.
  unfold RepetitionTracker.make_canonical.
  repeat split.
  - now rewrite strip_lower, strip_idem, lower_idem.
  - now rewrite strip_lower, strip_idem.
  - apply lower_idem.
  - now rewrite strip_idem.
  - now rewrite strip_lower, lower_idem.
Qed.

Lemma lstrip_occurs (c : ascii) (s : string) :
  occurs c (lstrip s) -> occurs c s.
Proof.
  induction s as [| d s IH]; cbn [lstrip]; [auto |].
  destruct (isspace d); [right; auto | auto].
Qed.

Lemma rstrip_occurs (c : ascii) (s : string) :
  occurs c (rstrip s) -> occurs c s.
Proof.
  induction s as [| d s IH]; cbn [rstrip]; [auto |].
  destruct (rstrip s) as [| k kept].
  - destruct (isspace d); cbn [occurs]; tauto.
  - cbn [occurs] in *. tauto.
Qed.

(** X9. In a sanitized message the author, the text and the server name
    hold no newline, carriage return or tab; the text has no surrounding
    whitespace; and a message outside any guild gets the server name
    "DM". *)
Theorem sanitize_message_clean (raw_message : Message) :
  let clean := PromptGenerator.sanitize_message raw_message in
  (forall c : ascii,
     FORBIDDEN_CHARACTERS c = true ->
     ~ occurs c (PromptGenerator.author clean) /\
     ~ occurs c (PromptGenerator.message_text clean) /\
     ~ occurs c (PromptGenerator.server clean)) /\
  strip (PromptGenerator.message_text clean) =
    PromptGenerator.message_text clean /\
  (guild_name raw_message = None -> PromptGenerator.server clean = "DM").
Proof.
  cbv zeta. unfold PromptGenerator.sanitize_message; cbn.
  split; [| split; [apply strip_idem | now intros ->]].
  intros c Hc.
  assert (Hclean : forall s, ~ occurs c (sanitize_string s)).
  { intros s H. apply sanitize_string_clean in H. congruence. }
  repeat split; try apply Hclean.
  intros H. unfold strip in H.
  apply rstrip_occurs, lstrip_occurs in H. now apply Hclean in H.
Qed.

End TextMore.

(** ** generate_history: boundaries, skipped messages, budgets *)

Section HistoryMore.
Import PromptGenerator.

Lemma candidates_no_stop (self : t) (ai : Z) (stop : option Z)
    (history : list Message) :
  Forall (fun m => at_throttle stop m = false) history ->
  candidates self ai stop history = candidates self ai None history.
Proof.
  induction 1 as [| m history Hm _ IH]; [reflexivity |].
  cbn [candidates]. rewrite Hm, IH. reflexivity.
Qed.

(** X10. A boundary that is [None] or 0, or the id of no message of the
    supplied history, does not shorten the history: the result is the
    one obtained without boundary. *)
Theorem generate_history_absent_boundary (self : t) (ai : Z)
    (history : list Message) :
  generate_history self ai history (Some 0) =
    generate_history self ai history None /\
  (forall k : Z,
     Forall (fun m => message_id m <> k) history ->
     generate_history self ai history (Some k) =
       generate_history self ai history None).
Proof.
  unfold generate_history. rewrite !history_loop_take. split.
  - rewrite (candidates_no_stop self ai (Some 0)); [reflexivity |].
    apply Forall_forall. intros m _. reflexivity.
  - intros k Hk. rewrite history_loop_take.
    rewrite (candidates_no_stop self ai (Some k)); [reflexivity |].
    eapply Forall_impl; [exact Hk |].
    intros m Hm. unfold at_throttle. cbn [truthy].
    apply Z.eqb_neq in Hm. rewrite Hm. apply andb_false_r.
Qed.

Lemma candidates_skip (self : t) (ai : Z) (stop : option Z)
    (newer older : list Message) (m : Message) :
  at_throttle stop m = false ->
  render self ai m = None ->
  candidates self ai stop (newer ++ m :: older) =
  candidates self ai stop (newer ++ older).
Proof.
  intros Hstop Hrender.
  induction newer as [| n newer IH]; cbn [app candidates].
  - now rewrite Hstop, Hrender.
  - now rewrite IH.
Qed.

(** X11. A message that is not the throttle message and whose sanitized
    text is empty, or that the bot wrote and that holds the image
    marker, takes no room: the history is the one built from the
    sequence without it. *)
Theorem generate_history_skips (self : t) (ai : Z) (stop : option Z)
    (newer older : list Message) (m : Message) :
  at_throttle stop m = false ->
  message_text (sanitize_message m) = EmptyString \/
  (author_id m = ai /\
   contains (message_text (sanitize_message m)) image_marker = true) ->
  generate_history self ai (newer ++ m :: older) stop =
  generate_history self ai (newer ++ older) stop.
Proof.
  intros Hstop Hskip. unfold generate_history.
  rewrite !history_loop_take, (candidates_skip self ai stop newer older m);
    [reflexivity | exact Hstop |].
  unfold render. destruct Hskip as [-> | [-> ->]].
  - now rewrite andb_false_r.
  - now rewrite Z.eqb_refl.
Qed.

(** An attachment without text, and the bot's note about an image, between
    two messages. *)
Lemma generate_history_skips_witness :
  generate_history (sample_generator 400) 99
    ([sample_message 4 7 "bob" "new"] ++ sample_message 3 7 "bob" "  "
       :: [sample_message 1 7 "bob" "old"]) None =
  generate_history (sample_generator 400) 99
    ([sample_message 4 7 "bob" "new"] ++ [sample_message 1 7 "bob" "old"])
    None.
Proof.
  apply (generate_history_skips (sample_generator 400) 99 None
           [sample_message 4 7 "bob" "new"]
           [sample_message 1 7 "bob" "old"]
           (sample_message 3 7 "bob" "  ")).
  - reflexivity.
  - left. reflexivity.
Defined.

Lemma take_budget_mono (small large : Z) (lines : list string) :
  small <= large ->
  exists more : list string,
    take_budget large lines = take_budget small lines ++ more.
Proof.
  revert small large.
  induction lines as [| l lines IH]; intros small large Hle;
    cbn [take_budget]; [now exists [] |].
  destruct (len l >? small) eqn:Es; [eexists; reflexivity |].
  assert (~ len l > small) by (rewrite <- Z.gtb_gt; congruence).
  destruct (len l >? large) eqn:El; [apply Z.gtb_gt in El; lia |].
  destruct (IH (small - len l) (large - len l)) as [more ->]; [lia |].
  now exists more.
Qed.

Lemma join_app (xs ys : list string) :
  join (xs ++ ys) = (join xs ++ join ys)%string.
Proof.
  induction xs as [| x xs IH]; cbn [app join]; [reflexivity |].
  now rewrite IH, string_app_assoc.
Qed.

Lemma candidates_same_template (g1 g2 : t) (ai : Z) (stop : option Z)
    (history : list Message) :
  ai_name g1 = ai_name g2 -> settings g1 = settings g2 ->
  candidates g1 ai stop history = candidates g2 ai stop history.
Proof.
  intros Hname Hsettings.
  induction history as [| m history IH]; cbn [candidates]; [reflexivity |].
  unfold render. now rewrite Hname, Hsettings, IH.
Qed.

(** X12. A larger budget only adds older lines: for two generators that
    differ in their budget alone, the history under the smaller budget
    is the end of the history under the larger one. *)
Theorem generate_history_budget_monotone (g1 g2 : t) (ai : Z)
    (history : list Message) (stop : option Z) :
  ai_name g1 = ai_name g2 ->
  settings g1 = settings g2 ->
  max_history_chars g1 <= max_history_chars g2 ->
  exists older : string,
    generate_history g2 ai history stop =
    (older ++ generate_history g1 ai history stop)%string.
Proof.
  intros Hname Hsettings Hle. unfold generate_history.
  rewrite !history_loop_take. cbn [app].
  rewrite (candidates_same_template g1 g2 ai stop history Hname Hsettings).
  destruct (take_budget_mono _ _ (candidates g2 ai stop history) Hle)
    as [more ->].
  exists (join (rev more)). now rewrite rev_app_distr, join_app.
Qed.

(** Budgets 390 and 400 keep the same thirteen lines of thirty
    characters; 420 keeps one more. *)
Lemma generate_history_budget_monotone_witness :
  exists older : string,
    generate_history (sample_generator 420) 99 thirty_char_history None =
    (older ++
     generate_history (sample_generator 400) 99 thirty_char_history None)
    %string.
Proof.
  apply (generate_history_budget_monotone (sample_generator 400)
           (sample_generator 420) 99 thirty_char_history None).
  - reflexivity.
  - reflexivity.
  - cbn. lia.
Defined.

Lemma never_throttled_keeps (self : RepetitionTracker.t) (ch b : Z)
    (events : list (Z * Message)) :
  RepetitionTracker.never_throttled self ch events ->
  RepetitionTracker.get_throttle_message_id self ch = Some b ->
  RepetitionTracker.get_throttle_message_id
    (RepetitionTracker.log_events self events) ch = Some b.
Proof.
  revert self. induction events as [| [c m] events IH]; intros self;
    cbn [RepetitionTracker.never_throttled]; [auto |].
  intros [Hnow Hlater] Hget.
  change (RepetitionTracker.log_events self ((c, m) :: events))
    with (RepetitionTracker.log_events
            (RepetitionTracker.log_message self c m) events).
  apply IH; [exact Hlater |].
  destruct (decide (c = ch)) as [-> | Hne].
  - rewrite log_message_boundary, Hnow, Hget; reflexivity.
  - unfold RepetitionTracker.get_throttle_message_id in *.
    now rewrite log_message_other.
Qed.

(** X13. Once the detector fires on a sent message [m] (with an id other
    than 0), and for as long as it does not fire again in that channel,
    the boundary the next response reads is the id of [m], and the
    history built with it stops before [m]: neither [m] nor anything
    older reaches the prompt. *)
Theorem throttle_hides_repeated_tail (self : t) (ai ch : Z)
    (tracker : RepetitionTracker.t) (m : Message)
    (later : list (Z * Message)) (newer older : list Message) :
  RepetitionTracker.should_throttle tracker
    (RepetitionTracker.next_count tracker ch m) = true ->
  message_id m <> 0 ->
  RepetitionTracker.never_throttled
    (RepetitionTracker.log_message tracker ch m) ch later ->
  let tracker' :=
    RepetitionTracker.log_events
      (RepetitionTracker.log_message tracker ch m) later in
  RepetitionTracker.get_throttle_message_id tracker' ch
    = Some (message_id m) /\
  generate_history self ai (newer ++ m :: older)
    (RepetitionTracker.get_throttle_message_id tracker' ch) =
  generate_history self ai newer
    (RepetitionTracker.get_throttle_message_id tracker' ch).
Proof.
  intros Hfire Hid Hquiet tracker'.
  assert (Hget : RepetitionTracker.get_throttle_message_id tracker' ch =
                 Some (message_id m)).
  { apply never_throttled_keeps; [exact Hquiet |].
    now rewrite log_message_boundary, Hfire. }
  split; [exact Hget |]. rewrite Hget.
  unfold generate_history.
  now rewrite !history_loop_take, candidates_cut.
Qed.

(** Threshold 1: "ok." twice fires on message 6; "fine." after it does
    not; the history then stops before message 6. *)
Lemma throttle_hides_repeated_tail_witness :
  generate_history (sample_generator 400) 99
    ([bot_message 7 "fine."] ++ bot_message 6 "ok."
       :: [bot_message 5 "ok."])
    (RepetitionTracker.get_throttle_message_id
       (RepetitionTracker.log_events
          (RepetitionTracker.log_message
             (RepetitionTracker.log_message (RepetitionTracker.init 1) 1
                (bot_message 5 "ok."))
             1 (bot_message 6 "ok."))
          [(1, bot_message 7 "fine.")]) 1) =
  generate_history (sample_generator 400) 99 [bot_message 7 "fine."]
    (RepetitionTracker.get_throttle_message_id
       (RepetitionTracker.log_events
          (RepetitionTracker.log_message
             (RepetitionTracker.log_message (RepetitionTracker.init 1) 1
                (bot_message 5 "ok."))
             1 (bot_message 6 "ok."))
          [(1, bot_message 7 "fine.")]) 1).
Proof.
  apply (throttle_hides_repeated_tail (sample_generator 400) 99 1
           (RepetitionTracker.log_message (RepetitionTracker.init 1) 1
              (bot_message 5 "ok."))
           (bot_message 6 "ok.") [(1, bot_message 7 "fine.")]
           [bot_message 7 "fine."] [bot_message 5 "ok."]).
  - reflexivity.
  - discriminate.
  - split; [intros _; reflexivity | exact I].
Defined.

End HistoryMore.

(** ** The response policy *)

Section PolicyMore.
Import DiscordBot.

Lemma purge_lookup (self : t) (now : float) (c : Z) (last : float) :
  channel_last_direct_response (purge_outdated_response_times self now) !! c
    = Some last <->
  channel_last_direct_response self !! c = Some last /\
  PrimFloat.leb
    (PrimFloat.sub now (discard_last_response_after_seconds self)) last
    = true.
Proof.
  unfold purge_outdated_response_times, set_channel_last_direct_response.
  cbn [channel_last_direct_response].
  now rewrite map_lookup_filter_Some.
Qed.

(** The answer to a message that gets past the checks made before the
    draw. *)
Lemma should_reply_unsolicited (self : t) (message : Message)
    (now sample : float) :
  author_bot message = false ->
  is_self self message = false ->
  should_send_direct_response self message = false ->
  mentions message = [] ->
  strip (content message) <> EmptyString ->
  fst (should_reply_to_message self message now sample) =
  match channel_last_direct_response self !! channel_id message with
  | Some last =>
      PrimFloat.leb
        (PrimFloat.sub now (discard_last_response_after_seconds self)) last
      && PrimFloat.ltb sample (response_chance self message last)
  | None => false
  end.
Proof.
  intros Hbot Hself Hdirect Hmentions Htext.
  unfold should_reply_to_message.
  rewrite Hbot, Hself, Hdirect, Hmentions. cbn [null negb].
  apply String.eqb_neq in Htext. rewrite Htext. cbn [fst].
  unfold should_send_unsolicited_response.
  destruct (channel_last_direct_response
              (purge_outdated_response_times self now)
              !! channel_id message) as [last |] eqn:E.
  - apply purge_lookup in E as [-> ->]. reflexivity.
  - destruct (channel_last_direct_response self !! channel_id message)
      as [last |] eqn:E'; [| reflexivity].
    destruct (PrimFloat.leb _ last) eqn:Hfresh; [| reflexivity].
    assert (H : channel_last_direct_response
                  (purge_outdated_response_times self now)
                  !! channel_id message = Some last)
      by now apply purge_lookup.
    congruence.
Qed.

(** X14. [should_reply_to_message] answers true exactly when the author
    is neither a bot nor the bot's own user and either the message is a
    direct one (private channel with direct messages not ignored,
    wake-word, or mention of the bot), or it mentions nobody, is not
    blank, its channel has a last direct response no older than the
    purge limit, and the random draw is below the response chance. *)
Theorem should_reply_exact (self : t) (message : Message)
    (now sample : float) :
  fst (should_reply_to_message self message now sample) = true <->
  author_bot message = false /\
  is_self self message = false /\
  (should_send_direct_response self message = true \/
   (mentions message = [] /\
    strip (content message) <> EmptyString /\
    exists last : float,
      channel_last_direct_response self !! channel_id message = Some last /\
      PrimFloat.leb
        (PrimFloat.sub now (discard_last_response_after_seconds self)) last
        = true /\
      PrimFloat.ltb sample (response_chance self message last) = true)).
Proof.
  destruct (author_bot message) eqn:Hbot.
  { unfold should_reply_to_message. rewrite Hbot. cbn. intuition congruence. }
  destruct (is_self self message) eqn:Hself.
  { unfold should_reply_to_message. rewrite Hbot, Hself. cbn.
    intuition congruence. }
  destruct (should_send_direct_response self message) eqn:Hdirect.
  { unfold should_reply_to_message. rewrite Hbot, Hself, Hdirect. cbn.
    intuition. }
  destruct (mentions message) as [| u us] eqn:Hmentions.
  2: { unfold should_reply_to_message.
       rewrite Hbot, Hself, Hdirect, Hmentions. cbn.
       split; [discriminate |].
       intros (_ & _ & [H | (H & _)]); discriminate H. }
  destruct (String.eqb_spec (strip (content message)) EmptyString)
    as [Hblank | Htext].
  { unfold should_reply_to_message.
    rewrite Hbot, Hself, Hdirect, Hmentions, Hblank. cbn.
    split; [discriminate |].
    intros (_ & _ & [H | (_ & H & _)]);
      [discriminate H | exfalso; now apply H]. }
  rewrite (should_reply_unsolicited self message now sample
             Hbot Hself Hdirect Hmentions Htext).
  destruct (channel_last_direct_response self !! channel_id message)
    as [last |].
  - rewrite andb_true_iff. split.
    + intros [H1 H2]. repeat split. right. repeat split; eauto.
    + intros (_ & _ & [H | (_ & _ & last' & [= <-] & H1 & H2)]);
        [discriminate H | auto].
  - split; [discriminate |].
    intros (_ & _ & [H | (_ & _ & last' & H & _)]); discriminate H.
Qed.

(** X15. After a direct response at time [now1] in a channel whose id is
    not 0, a later message in that channel that is not direct, mentions
    nobody and is not blank is answered exactly when its draw is below
    the response chance computed from the time elapsed since [now1],
    provided [now1] is not older than the purge limit at the later
    call. *)
Theorem direct_response_opens_window (self : t) (m1 m2 : Message)
    (now1 r1 now2 r2 : float) :
  author_bot m1 = false ->
  is_self self m1 = false ->
  should_send_direct_response self m1 = true ->
  channel_id m1 <> 0 ->
  channel_id m2 = channel_id m1 ->
  author_bot m2 = false ->
  is_self self m2 = false ->
  should_send_direct_response self m2 = false ->
  mentions m2 = [] ->
  strip (content m2) <> EmptyString ->
  PrimFloat.leb
    (PrimFloat.sub now2 (discard_last_response_after_seconds self)) now1
    = true ->
  let self1 := snd (should_reply_to_message self m1 now1 r1) in
  fst (should_reply_to_message self m1 now1 r1) = true /\
  channel_last_direct_response self1 !! channel_id m1 = Some now1 /\
  fst (should_reply_to_message self1 m2 now2 r2) =
    PrimFloat.ltb r2 (response_chance self m2 now1).
Proof.
  intros Hbot1 Hself1 Hdirect1 Hid Hsame Hbot2 Hself2 Hdirect2 Hmentions
    Htext Hfresh.
  assert (E1 : should_reply_to_message self m1 now1 r1 =
               (true,
                set_channel_last_direct_response self
                  (<[channel_id m1 := now1]>
                     (channel_last_direct_response self)))).
  { unfold should_reply_to_message. rewrite Hbot1, Hself1, Hdirect1.
    apply Z.eqb_neq in Hid. now rewrite Hid. }
  rewrite E1. cbn [fst snd].
  split; [reflexivity |].
  split; [cbn [set_channel_last_direct_response
               channel_last_direct_response];
          apply lookup_insert_eq |].
  rewrite should_reply_unsolicited; try assumption.
  rewrite Hsame.
  cbn [set_channel_last_direct_response channel_last_direct_response
       discard_last_response_after_seconds].
  now rewrite lookup_insert_eq, Hfresh.
Qed.

(** "hey bot" at time 100 in channel 1, then "really?" created at time
    105 and handled at time 106 with draw 0.875: the chance is
    0.75 + 0.5. *)
Lemma direct_response_opens_window_witness :
  fst (should_reply_to_message
         (snd (should_reply_to_message sample_bot
                 (sample_message 8 7 "bob" "hey bot") 100%float 0.5%float))
         {| message_id := 9; content := "really?"; author_id := 7;
            author_name := "bob"; author_bot := false;
            guild_name := Some "guild"; channel_id := 1;
            channel_private := false; mentions := [];
            created_at := 105%float |}
         106%float 0.875%float) = true.
Proof.
  etransitivity.
  - apply (direct_response_opens_window sample_bot
             (sample_message 8 7 "bob" "hey bot")
             {| message_id := 9; content := "really?"; author_id := 7;
                author_name := "bob"; author_bot := false;
                guild_name := Some "guild"; channel_id := 1;
                channel_private := false; mentions := [];
                created_at := 105%float |}
             100%float 0.5%float 106%float 0.875%float);
      first [reflexivity | discriminate].
  - reflexivity.
Defined.

End PolicyMore.

Section IgnoreDms.
Import DiscordBot.

(** Whether a channel is private is a fact about the channel. *)
Variable private_channel : Z -> bool.

Lemma should_reply_keeps_ignoring (self : t) (message : Message)
    (now sample : float) :
  ignore_dms self = true ->
  no_private_entry private_channel self ->
  channel_private message = private_channel (channel_id message) ->
  ignore_dms (snd (should_reply_to_message self message now sample)) = true /\
  no_private_entry private_channel (snd (should_reply_to_message self message now sample)) /\
  (channel_private message = true ->
   fst (should_reply_to_message self message now sample) = false).
Proof.
  intros Hignore Hinv Hchan. unfold should_reply_to_message.
  destruct (author_bot message); [now repeat split |].
  destruct (is_self self message); [now repeat split |].
  destruct (should_send_direct_response self message) eqn:Hdirect.
  { assert (Hpublic : channel_private message = false).
    { unfold should_send_direct_response in Hdirect.
      destruct (channel_private message); [| reflexivity].
      rewrite Hignore in Hdirect. discriminate Hdirect. }
    destruct (negb (channel_id message =? 0)); cbn [fst snd].
    - repeat split; [exact Hignore | | congruence].
      intros c last.
      cbn [set_channel_last_direct_response channel_last_direct_response].
      destruct (decide (c = channel_id message)) as [-> | Hne].
      + intros _. congruence.
      + rewrite lookup_insert_ne by congruence. apply Hinv.
    - repeat split; [exact Hignore | exact Hinv | congruence]. }
  destruct (negb (null (mentions message))); [now repeat split |].
  destruct (String.eqb _ _); [now repeat split |].
  cbn [fst snd].
  assert (Hinv' : no_private_entry private_channel (purge_outdated_response_times self now)).
  { intros c last [H _]%purge_lookup. eapply Hinv, H. }
  repeat split; [exact Hignore | exact Hinv' |].
  intros Hprivate. unfold should_send_unsolicited_response.
  destruct (channel_last_direct_response _ !! channel_id message)
    as [last |] eqn:E; [| reflexivity].
  apply Hinv' in E. congruence.
Qed.

(** X16. A bot that ignores direct messages and holds no last direct
    response for a private channel answers no message of a private
    channel, however many messages it handles and whatever the clock and
    the draws. *)
Theorem ignored_dms_never_answered (events : list (Message * float * float))
    (self : t) :
  ignore_dms self = true ->
  no_private_entry private_channel self ->
  Forall (fun e => channel_private (fst (fst e)) =
                   private_channel (channel_id (fst (fst e)))) events ->
  Forall2 (fun e answer =>
             channel_private (fst (fst e)) = true -> answer = false)
          events (replies self events).
Proof.
  revert self.
  induction events as [| [[message now] sample] events IH];
    intros self Hignore Hinv Hchan; cbn [replies]; [constructor |].
  apply Forall_cons in Hchan as [Hm Hchan]. cbn [fst] in Hm.
  destruct (should_reply_keeps_ignoring self message now sample
              Hignore Hinv Hm) as (Hignore' & Hinv' & Hanswer).
  destruct (should_reply_to_message self message now sample)
    as [answer self'].
  cbn [fst snd] in *.
  constructor; [exact Hanswer | now apply IH].
Qed.

End IgnoreDms.

(** A direct message holding the wake-word, with the draw 0. *)
Lemma ignored_dms_never_answered_witness :
  Forall2 (fun e answer =>
             channel_private (fst (fst e)) = true -> answer = false)
          [(sample_dm 5 "hey bot!", 1%float, 0%float)]
          (replies sample_bot_ignoring_dms
             [(sample_dm 5 "hey bot!", 1%float, 0%float)]).
Proof.
  apply (ignored_dms_never_answered (fun c => c =? 2)).
  - reflexivity.
  - intros c last H. cbn in H.
    destruct (decide (c = 1)) as [-> | Hne]; [reflexivity |].
    rewrite lookup_singleton_ne in H by congruence. discriminate H.
  - repeat constructor.
Defined.

(** ** The sentence loop: what is sent and what is logged *)

Section SendMore.
Import DiscordBot.

Variable Channel : Type.
Variable send : Channel -> string -> option (Message * Channel).

Lemma kept_sentences_sublist (ai_name : string) (sentences : list string) :
  kept_sentences ai_name sentences `sublist_of` sentences.
Proof.
  induction sentences as [| s sentences IH]; cbn [kept_sentences];
    [constructor |].
  destruct (String.eqb _ s); [now constructor |].
  destruct (endswith s _); [apply sublist_nil_l | now constructor].
Qed.

Lemma sentence_loop_send_all (ai_name : string) (channel_id : Z)
    (sentences : list string) (stream_raises : bool) (chan : Channel)
    (tracker : RepetitionTracker.t) :
  sentence_loop Channel send ai_name channel_id sentences stream_raises
    chan tracker =
  send_all send channel_id (kept_sentences ai_name sentences)
    (stream_raises && negb (aborted ai_name sentences)) chan tracker.
Proof.
  revert chan tracker.
  induction sentences as [| s sentences IH]; intros chan tracker;
    cbn [sentence_loop kept_sentences aborted send_all].
  - now rewrite andb_true_r.
  - destruct (String.eqb _ s); [apply IH |].
    destruct (endswith s _); [now rewrite andb_false_r |].
    cbn [send_all].
    destruct (send chan s) as [[m chan'] |]; [apply IH | reflexivity].
Qed.

(** X17. The loop of [send_response] sends, in order, the sentences that
    pass the filters and nothing else: its result is that of sending the
    kept sentences one after the other, followed by the failure of the
    stream when the stream raises and the loop did not leave it by
    [break].  The kept sentences are taken from the stream in its order,
    and none of them ends with " says:". *)
Theorem sentence_loop_sends_kept (ai_name : string) (channel_id : Z)
    (sentences : list string) (stream_raises : bool) (chan : Channel)
    (tracker : RepetitionTracker.t) :
  sentence_loop Channel send ai_name channel_id sentences stream_raises
    chan tracker =
    send_all send channel_id (kept_sentences ai_name sentences)
      (stream_raises && negb (aborted ai_name sentences)) chan tracker /\
  kept_sentences ai_name sentences `sublist_of` sentences /\
  Forall (fun s => endswith s " says:" = false)
         (kept_sentences ai_name sentences).
Proof.
  split; [apply sentence_loop_send_all |].
  split; [apply kept_sentences_sublist |].
  induction sentences as [| s sentences IH]; cbn [kept_sentences];
    [constructor |].
  destruct (String.eqb _ s); [exact IH |].
  destruct (endswith s _) eqn:E; constructor; auto.
Qed.

(** X18. After the loop the tracker is the one it started with, with the
    messages the platform returned (up to the first call that raised)
    logged in the order they were sent; the loop ends without failure
    exactly when every kept sentence was sent and the stream did not
    raise, or was left by [break] before it could. *)
Theorem sentence_loop_logs_responses (ai_name : string) (channel_id : Z)
    (sentences : list string) (stream_raises : bool) (chan : Channel)
    (tracker : RepetitionTracker.t) :
  let kept := kept_sentences ai_name sentences in
  let sent := responses send kept chan in
  let result :=
    sentence_loop Channel send ai_name channel_id sentences stream_raises
      chan tracker in
  snd result = RepetitionTracker.log_messages tracker channel_id sent /\
  (length sent <= length kept)%nat /\
  (fst (fst result) = Done <->
   length sent = length kept /\
   (stream_raises = false \/ aborted ai_name sentences = true)).
Proof.
  cbv zeta.
  assert (Hloop : forall kept fails_after chan tracker,
             snd (send_all send channel_id kept fails_after chan tracker) =
               RepetitionTracker.log_messages tracker channel_id
                 (responses send kept chan) /\
             (length (responses send kept chan) <= length kept)%nat /\
             (fst (fst (send_all send channel_id kept fails_after
                          chan tracker)) = Done
              <-> length (responses send kept chan) = length kept /\
                  fails_after = false)).
  { clear. intros kept fails_after.
    induction kept as [| s kept IH]; intros chan tracker;
      cbn [send_all responses].
    - repeat split; auto.
      + now destruct fails_after.
      + intros [_ ->]. reflexivity.
    - destruct (send chan s) as [[m chan'] |]; cbn [length].
      + destruct (IH chan' (RepetitionTracker.log_message
                              tracker channel_id m)) as (H1 & H2 & H3).
        repeat split; [exact H1 | lia | | | ].
        * apply H3 in H. lia.
        * now apply H3.
        * intros [H Hf]. apply H3. split; [lia | exact Hf].
      + repeat split; [lia | discriminate | discriminate |].
        intros [H _]. discriminate H. }
  rewrite sentence_loop_send_all.
  destruct (Hloop (kept_sentences ai_name sentences)
              (stream_raises && negb (aborted ai_name sentences))
              chan tracker) as (H1 & H2 & H3).
  split; [exact H1 |]. split; [exact H2 |].
  rewrite H3.
  destruct stream_raises, (aborted ai_name sentences); cbn; intuition.
Qed.

End SendMore.

(** ** The purge limit *)

Section MaxDuration.
Import DiscordBot.

Lemma SF_lt_trans (a b c : spec_float) :
  SFltb a b = true -> SFltb b c = true -> SFltb a c = true.
Proof.
  unfold SFltb, SFcompare.
  destruct a as [sa | sa | | sa ma ea], b as [sb | sb | | sb mb eb],
    c as [sc | sc | | sc mc ec];
    repeat match goal with s : bool |- _ => destruct s end;
    try (intros; (reflexivity || discriminate));
    change (Pos.compare_cont Eq) with Pos.compare;
    destruct (Z.compare_spec ea eb), (Z.compare_spec eb ec),
      (Z.compare_spec ea ec); try lia;
    try (intros; (reflexivity || discriminate));
    destruct (Pos.compare_spec ma mb), (Pos.compare_spec mb mc),
      (Pos.compare_spec ma mc); try lia;
    try (intros; (reflexivity || discriminate)).
Qed.

Lemma SF_lt_irrefl (a : spec_float) : SFltb a a = false.
Proof.
  unfold SFltb, SFcompare.
  destruct a as [[] | [] | | [] m e]; try reflexivity;
    change (Pos.compare_cont Eq) with Pos.compare;
    now rewrite Z.compare_refl, Pos.compare_refl.
Qed.

Lemma float_lt_trans (x y z : float) :
  PrimFloat.ltb x y = true -> PrimFloat.ltb y z = true ->
  PrimFloat.ltb x z = true.
Proof. rewrite !ltb_spec. apply SF_lt_trans. Qed.

Lemma float_lt_irrefl (x : float) : PrimFloat.ltb x x = false.
Proof. rewrite ltb_spec. apply SF_lt_irrefl. Qed.

Lemma float_lt_asym (x y : float) :
  PrimFloat.ltb x y = true -> PrimFloat.ltb y x = false.
Proof.
  intros H. destruct (PrimFloat.ltb y x) eqn:E; [| reflexivity].
  rewrite <- (float_lt_irrefl x). symmetry. eapply float_lt_trans; eauto.
Qed.

Lemma fold_max_spec (rest : list (float * float)) (best : float) :
  let r := fold_left (fun best '(d', _) =>
                        if PrimFloat.ltb best d' then d' else best)
                     rest best in
  (r = best \/ (PrimFloat.ltb best r = true /\ In r (map fst rest))) /\
  Forall (fun e => PrimFloat.ltb r (fst e) = false) rest.
Proof.
  cbv zeta. revert best.
  induction rest as [| [d c] rest IH]; intros best; cbn [fold_left map fst In].
  { split; [now left | constructor]. }
  destruct (PrimFloat.ltb best d) eqn:Hlt.
  - destruct (IH d) as [[-> | [Hr Hin]] Hall].
    + split; [right; auto |].
      constructor; [apply float_lt_irrefl | exact Hall].
    + split.
      * right. split; [eapply float_lt_trans; eauto | auto].
      * constructor; [now apply float_lt_asym | exact Hall].
  - destruct (IH best) as [[-> | [Hr Hin]] Hall].
    + split; [now left |]. constructor; [exact Hlt | exact Hall].
    + split; [right; auto |].
      constructor; [| exact Hall]. cbn [fst].
      destruct (PrimFloat.ltb (fold_left _ rest best) d) eqn:E;
        [| reflexivity].
      pose proof (float_lt_trans _ _ _ Hr E). congruence.
Qed.

(** X19. The purge limit the constructor computes,
    [max(time for time, _ in DISCORD_TIME_VS_RESPONSE_CHANCE)], does not
    exist for an empty table (the call raises); otherwise it is one of
    the durations of the table and no duration of the table is greater
    than it. *)
Theorem max_duration_is_greatest (table : list (float * float)) :
  (max_duration table = None <-> table = []) /\
  (forall r : float,
     max_duration table = Some r ->
     In r (map fst table) /\
     Forall (fun e => PrimFloat.ltb r (fst e) = false) table).
Proof.
  destruct table as [| [d c] rest]; cbn [max_duration].
  { split; [tauto | discriminate]. }
  split; [split; discriminate |].
  intros r [= <-].
  destruct (fold_max_spec rest d) as [[-> | [Hr Hin]] Hall].
  - split; [now left |].
    constructor; [apply float_lt_irrefl | exact Hall].
  - split; [now right |].
    constructor; [now apply float_lt_asym | exact Hall].
Qed.

End MaxDuration.
